(** * Compression estimators of the block-history tool

    A shallow embedding of the estimator program (the worker loop, the
    zlib batch estimator, the local block client, the FastLZ length
    estimator and the record writer), with the properties its
    specification states about them.

    Conventions.
    - Go's [uint32] is a [Z] kept in [0, 2^32) by [u32]; [int] and
      [uint64] values are plain [Z] (their wrap-around is out of reach of
      every length and counter used here, and is written out where a
      conversion truncates).
    - A byte slice is a [list byte]; an index expression [ib[i]] is a
      fallible read that panics out of range.
    - Loops run on fuel; [OutOfFuel] is kept apart from [Panic] so that
      termination and memory safety are separate statements. *)

From Stdlib Require Import ZArith Lia List Bool.
From Stdlib Require Import Strings.Byte.
From Stdlib Require Import Sorting.Permutation.
From stdpp Require Import base list.
Import ListNotations.

Local Open Scope Z_scope.

(** ** Results of fallible code *)

Inductive res (A : Type) : Type :=
| Ok (a : A)
| Panic
| OutOfFuel.
Arguments Ok {A} a.
Arguments Panic {A}.
Arguments OutOfFuel {A}.

#[global] Instance res_bind : MBind res := fun A B k m =>
  match m with
  | Ok a => k a
  | Panic => Panic
  | OutOfFuel => OutOfFuel
  end.

#[global] Instance res_ret : MRet res := fun A a => Ok a.

(** ** Machine integers and byte slices *)

Definition u32 (x : Z) : Z := x mod 2 ^ 32.

Definition byte_val (b : byte) : Z := Z.of_N (Byte.to_N b).

(** [len(b)] as a Go [int]. *)
Definition len (b : list byte) : Z := Z.of_nat (length b).

(** ** The FastLZ length estimator *)

Module Flz.

Section WithInput.

Variable ib : list byte.

(** [ib[i]] for a [uint32] index. *)
Definition rd (i : Z) : res Z :=
  match ib !! Z.to_nat i with
  | Some b => Ok (byte_val b)
  | None => Panic
  end.

Definition u24 (i : Z) : res Z :=
  b0 ← rd i;
  b1 ← rd (u32 (i + 1));
  b2 ← rd (u32 (i + 2));
  Ok (Z.lor (Z.lor b0 (u32 (Z.shiftl b1 8))) (u32 (Z.shiftl b2 16))).

(** The loop of [cmp], after [e -= q]: [fuel] bounds the iterations. *)
Fixpoint cmp_loop (fuel : nat) (p q e l : Z) : res Z :=
  if l <? e then
    match fuel with
    | O => OutOfFuel
    | S fuel' =>
        x ← rd (u32 (p + l));
        y ← rd (u32 (q + l));
        cmp_loop fuel' p q (if x =? y then e else 0) (u32 (l + 1))
    end
  else Ok l.

Definition cmp (p q e : Z) : res Z :=
  let e' := u32 (e - q) in
  cmp_loop (Z.to_nat e') p q e' 0.

Definition literals (r n : Z) : Z :=
  let n1 := u32 (n + u32 (33 * (r / 32))) in
  let r' := r mod 32 in
  if r' =? 0 then n1 else u32 (n1 + u32 (r' + 1)).

Definition match_ (l n : Z) : Z :=
  let l' := u32 (l - 1) in
  let n1 := u32 (n + u32 (3 * (l' / 262))) in
  if 6 <=? l' mod 262 then u32 (n1 + 3) else u32 (n1 + 2).

Definition hash (v : Z) : Z :=
  Z.land (Z.shiftr (u32 (2654435769 * v)) 19) 8191.

(** [ht[h]] and [ht[h] = v] on the 8192-slot table. *)
Definition ht_get (ht : list Z) (h : Z) : res Z :=
  match ht !! Z.to_nat h with
  | Some v => Ok v
  | None => Panic
  end.

Definition ht_set (ht : list Z) (h v : Z) : res (list Z) :=
  if (Z.to_nat h <? length ht)%nat then Ok (<[Z.to_nat h := v]> ht) else Panic.

Definition setNextHash (ip : Z) (ht : list Z) : res (Z * list Z) :=
  s ← u24 ip;
  ht' ← ht_set ht (hash s) ip;
  Ok (u32 (ip + 1), ht').

Definition ipLimit : Z :=
  if len ib <? 13 then 0 else u32 (u32 (len ib) - 13).

(** The inner [for] of the scan: probe positions until a candidate match
    is found or the limit is reached. Returns [ip], [r] and the table. *)
Fixpoint probe (fuel : nat) (ip : Z) (ht : list Z) : res (Z * Z * list Z) :=
  match fuel with
  | O => OutOfFuel
  | S fuel' =>
      s ← u24 ip;
      let h := hash s in
      r ← ht_get ht h;
      ht' ← ht_set ht h ip;
      let d := u32 (ip - r) in
      if ipLimit <=? ip then Ok (ip, r, ht')
      else
        let ip' := u32 (ip + 1) in
        if d <=? 8191 then
          sr ← u24 r;
          if s =? sr then Ok (ip', r, ht') else probe fuel' ip' ht'
        else probe fuel' ip' ht'
  end.

(** The outer [for ip := a + 2; ip < ipLimit;] loop. Returns the anchor
    [a], the running cost [n] and the table. *)
Fixpoint scan (fuel : nat) (ip a n : Z) (ht : list Z)
  : res (Z * Z * list Z) :=
  if ip <? ipLimit then
    match fuel with
    | O => OutOfFuel
    | S fuel' =>
        '(ip1, r, ht1) ← probe (length ib) ip ht;
        if ipLimit <=? ip1 then Ok (a, n, ht1)
        else
          let ip2 := u32 (ip1 - 1) in
          let n1 := if a <? ip2 then literals (u32 (ip2 - a)) n else n in
          l ← cmp (u32 (r + 3)) (u32 (ip2 + 3)) (u32 (ipLimit + 9));
          let n2 := match_ l n1 in
          '(ip3, ht2) ← setNextHash (u32 (ip2 + l)) ht1;
          '(ip4, ht3) ← setNextHash ip3 ht2;
          scan fuel' ip4 ip4 n2 ht3
    end
  else Ok (a, n, ht).

Definition empty_table : list Z := replicate (Z.to_nat 8192) 0.

Definition scan_result : res (Z * Z * list Z) :=
  scan (length ib) (u32 (0 + 2)) 0 0 empty_table.

Definition FlzCompressLen : res Z :=
  '(a, n, _) ← scan_result;
  Ok (literals (u32 (u32 (len ib) - a)) n).

End WithInput.

End Flz.

(** ** The zlib batch estimator *)

(** The compression engine behind [zlib.Writer] at [zlib.BestCompression]
    is library code; it is a parameter of the development. A session
    state [zstate] covers everything a [zlib.Writer] holds apart from its
    destination (header flag, deflate window, pending input). [z_write]
    and [z_flush] return the new state and the bytes handed to the
    destination. [z_fresh] is the state after [zlib.NewWriterLevel] and
    after [Reset], which the library documents as equivalent. Writing to
    a [bytes.Buffer] never fails, so the [err] results are always nil and
    the [log.Fatal] branches are dead. *)
Class ZlibEngine : Type := {
  zstate : Type;
  z_fresh : zstate;
  z_write : zstate -> list byte -> zstate * list byte;
  z_flush : zstate -> zstate * list byte;
}.

(** The two elements of the arrays [b] and [w]; as the address [&b[i]] it
    is also what a writer keeps as its destination. *)
Inductive slot : Type := Slot0 | Slot1.

Module Zlib.

Section WithEngine.

Context `{E : ZlibEngine}.

(** A [*zlib.Writer]: the destination pointer it was given by
    [NewWriterLevel] or [Reset], and its session state. [w[0]] and [w[1]]
    always point to two distinct writers, so each array element is
    modelled by the writer it points to. *)
Record zwriter : Type := mk_zwriter {
  dst : slot;
  zst : zstate;
}.

(** [b] holds [bytes.Buffer] values (never read from, so a buffer is its
    unread bytes); [w] holds the writers. *)
Record zlibBatchEstimator : Type := mk_estimator {
  b0 : list byte;
  b1 : list byte;
  w0 : zwriter;
  w1 : zwriter;
}.

Definition buf (e : zlibBatchEstimator) (i : slot) : list byte :=
  match i with Slot0 => b0 e | Slot1 => b1 e end.

Definition wr (e : zlibBatchEstimator) (i : slot) : zwriter :=
  match i with Slot0 => w0 e | Slot1 => w1 e end.

Definition set_buf (e : zlibBatchEstimator) (i : slot) (v : list byte)
  : zlibBatchEstimator :=
  match i with
  | Slot0 => mk_estimator v (b1 e) (w0 e) (w1 e)
  | Slot1 => mk_estimator (b0 e) v (w0 e) (w1 e)
  end.

Definition set_wr (e : zlibBatchEstimator) (i : slot) (w : zwriter)
  : zlibBatchEstimator :=
  match i with
  | Slot0 => mk_estimator (b0 e) (b1 e) w (w1 e)
  | Slot1 => mk_estimator (b0 e) (b1 e) (w0 e) w
  end.

Definition newZlibBatchEstimator : zlibBatchEstimator :=
  mk_estimator [] [] (mk_zwriter Slot0 z_fresh) (mk_zwriter Slot1 z_fresh).

(** One call on the writer [w[i]]: the session advances and its output is
    appended to the buffer stored at the writer's destination. *)
Definition call (i : slot) (op : zstate -> zstate * list byte)
  (e : zlibBatchEstimator) : zlibBatchEstimator :=
  let w := wr e i in
  let '(st, out) := op (zst w) in
  set_wr (set_buf e (dst w) (buf e (dst w) ++ out)) i (mk_zwriter (dst w) st).

(** [w.w[i].Write(p)] followed by [w.w[i].Flush()]. *)
Definition write_flush (i : slot) (p : list byte) (e : zlibBatchEstimator)
  : zlibBatchEstimator :=
  call i z_flush (call i (fun st => z_write st p) e).

(** The body of [if w.b[1].Len() > 128*1024], statement by statement:
    [w.b[1].Reset()], [w.w[1].Reset(&w.b[1])], [tb := w.b[1]],
    [tw := w.w[1]], [w.b[1] = w.b[0]], [w.w[1] = w.w[0]], [w.b[0] = tb],
    [w.w[0] = tw]. The assignments to [w.b] copy buffer values from one
    array element to the other; those to [w.w] copy pointers, and a writer
    reached through them still has the destination it was given. *)
Definition rotate (e : zlibBatchEstimator) : zlibBatchEstimator :=
  let e1 := set_buf e Slot1 [] in
  let e2 := set_wr e1 Slot1 (mk_zwriter Slot1 z_fresh) in
  let tb := buf e2 Slot1 in
  let tw := wr e2 Slot1 in
  let e3 := set_buf e2 Slot1 (buf e2 Slot0) in
  let e4 := set_wr e3 Slot1 (wr e3 Slot0) in
  let e5 := set_buf e4 Slot0 tb in
  set_wr e5 Slot0 tw.

(** The estimator after the write to [w[1]], after the mirrored write to
    [w[0]], and at return. *)
Definition after_b (e : zlibBatchEstimator) (p : list byte)
  : zlibBatchEstimator :=
  write_flush Slot1 p e.

Definition after_mirror (e : zlibBatchEstimator) (p : list byte)
  : zlibBatchEstimator :=
  let e1 := after_b e p in
  if 64 * 1024 <? len (buf e1 Slot1) then write_flush Slot0 p e1 else e1.

Definition rotates (e : zlibBatchEstimator) (p : list byte) : bool :=
  128 * 1024 <? len (buf (after_mirror e p) Slot1).

Definition write (e : zlibBatchEstimator) (p : list byte)
  : zlibBatchEstimator * Z :=
  let before := len (buf e Slot1) in
  let e1 := after_b e p in
  let after := len (buf e1 Slot1) in
  let e2 := after_mirror e p in
  let e3 := if rotates e p then rotate e2 else e2 in
  (e3, if after - before - 2 <? 0 then 0 else u32 (after - before - 2)).

(** The states the worker can hold. *)
Inductive reachable : zlibBatchEstimator -> Prop :=
| reach_new : reachable newZlibBatchEstimator
| reach_write e p : reachable e -> reachable (fst (write e p)).

End WithEngine.

End Zlib.

Arguments Zlib.zwriter : clear implicits.
Arguments Zlib.zlibBatchEstimator : clear implicits.

(** A small engine to run the estimator on: a two-byte header on the
    first call of a session, the payload verbatim, and two marker bytes
    per flush. *)
Definition raw_header (started : bool) : list byte :=
  if started then [] else [x78; xda].

#[global] Instance raw_engine : ZlibEngine := {|
  zstate := bool;
  z_fresh := false;
  z_write st p := (true, raw_header st ++ p);
  z_flush st := (true, raw_header st ++ [x00; xff]);
|}.

(** ** Blocks, transactions and results *)

(** A transaction as the worker sees it: whether [tx.Type()] is
    [types.DepositTxType], and what [tx.MarshalBinary()] returns ([None]
    for an error). *)
Record Tx : Type := mk_tx {
  tx_is_deposit : bool;
  tx_binary : option (list byte);
}.

Record Block : Type := mk_block {
  NumberU64 : Z;
  Transactions : list Tx;
}.

(** [Block] is a pointer in the source: [None] is the nil block. *)
Record BlockJob : Type := mk_job {
  job_block : option Block;
}.

Record TxResult : Type := mk_result {
  BlockNumber : Z;
  Best : Z;
  Fastlz : Z;
  Zeroes : Z;
  NonZeroes : Z;
}.

Inductive log_line : Type :=
| LogNilBlock
| LogMarshalError
| LogBootstrapComplete (count : Z)
| LogFetchFailed (blockNum : Z).

(** ** The worker loop *)

Module Worker.

Section WithEngine.

Context `{E : ZlibEngine}.

(** The two settings of [main] that the worker reads. *)
Record config : Type := mk_config {
  trimSignature : bool;
  bootstrapTxs : Z;
}.

(** The worker's variables, with what it has sent on [resultChan] and
    printed so far. *)
Record state : Type := mk_state {
  zlibBestBatchEstimator : Zlib.zlibBatchEstimator E;
  bootstrapCount : Z;
  bootstrapDone : bool;
  sent : list TxResult;
  logged : list log_line;
}.

Definition start : state :=
  mk_state Zlib.newZlibBatchEstimator 0 false [] [].

(** [b = b[:len(b)-68]] under its guard. *)
Definition trim (cfg : config) (b : list byte) : list byte :=
  if trimSignature cfg && (68 <=? len b) then take (length b - 68) b else b.

(** The counting loop over the payload, from the counters given. *)
Fixpoint count_bytes (b : list byte) (zeroes nonZeroes : Z) : Z * Z :=
  match b with
  | [] => (zeroes, nonZeroes)
  | x :: b' =>
      if byte_val x =? 0 then count_bytes b' (u32 (zeroes + 1)) nonZeroes
      else count_bytes b' zeroes (u32 (nonZeroes + 1))
  end.

(** The body of [for _, tx := range block.Transactions()]. *)
Definition process_tx (cfg : config) (number : Z) (st : state) (tx : Tx)
  : res state :=
  if tx_is_deposit tx then Ok st
  else
    match tx_binary tx with
    | None =>
        Ok (mk_state (zlibBestBatchEstimator st) (bootstrapCount st) (bootstrapDone st)
              (sent st) (logged st ++ [LogMarshalError]))
    | Some raw =>
        let b := trim cfg raw in
        if negb (bootstrapDone st) then
          let '(est, _) := Zlib.write (zlibBestBatchEstimator st) b in
          let count := bootstrapCount st + 1 in
          if bootstrapTxs cfg <=? count then
            Ok (mk_state est count true (sent st)
                  (logged st ++ [LogBootstrapComplete count]))
          else Ok (mk_state est count false (sent st) (logged st))
        else
          let '(est, best) := Zlib.write (zlibBestBatchEstimator st) b in
          fastlz ← Flz.FlzCompressLen b;
          let '(zeroes, nonZeroes) := count_bytes b 0 0 in
          Ok (mk_state est (bootstrapCount st) (bootstrapDone st)
                (sent st ++ [mk_result number best fastlz zeroes nonZeroes])
                (logged st))
    end.

Fixpoint process_txs (cfg : config) (number : Z) (st : state)
  (txs : list Tx) : res state :=
  match txs with
  | [] => Ok st
  | tx :: txs' =>
      st' ← process_tx cfg number st tx;
      process_txs cfg number st' txs'
  end.

(** The body of [for job := range jobChan]. *)
Definition process_job (cfg : config) (st : state) (job : BlockJob)
  : res state :=
  match job_block job with
  | None =>
      Ok (mk_state (zlibBestBatchEstimator st) (bootstrapCount st) (bootstrapDone st)
            (sent st) (logged st ++ [LogNilBlock]))
  | Some block => process_txs cfg (NumberU64 block) st (Transactions block)
  end.

Fixpoint run (cfg : config) (st : state) (jobs : list BlockJob)
  : res state :=
  match jobs with
  | [] => Ok st
  | job :: jobs' =>
      st' ← process_job cfg st job;
      run cfg st' jobs'
  end.

(** The worker goroutine on the jobs in arrival order. *)
Definition worker (cfg : config) (jobs : list BlockJob) : res state :=
  run cfg start jobs.

End WithEngine.

End Worker.

Arguments Worker.state : clear implicits.

(** ** The writer *)

Module Writer.

Definition byte_of (x : Z) : byte :=
  match Byte.of_N (Z.to_N (x mod 256)) with
  | Some b => b
  | None => x00
  end.

(** [binary.Write(output, binary.LittleEndian, v)] for a [uint32]: the
    four bytes appended to the file. *)
Definition le32 (v : Z) : list byte :=
  [byte_of v; byte_of (Z.shiftr v 8); byte_of (Z.shiftr v 16);
   byte_of (Z.shiftr v 24)].

Definition binary_Write (output : list byte) (v : Z) : list byte :=
  output ++ le32 v.

(** The five writes of one iteration of [for result := range resultChan]. *)
Definition write_result (output : list byte) (result : TxResult)
  : list byte :=
  let o1 := binary_Write output (u32 (BlockNumber result)) in
  let o2 := binary_Write o1 (Best result) in
  let o3 := binary_Write o2 (Fastlz result) in
  let o4 := binary_Write o3 (Zeroes result) in
  binary_Write o4 (NonZeroes result).

Record state : Type := mk_state {
  output : list byte;
  resultCount : Z;
  lastBlock : Z;
}.

Definition start : state := mk_state [] 0 0.

Definition step (st : state) (result : TxResult) : state :=
  mk_state (write_result (output st) result) (resultCount st + 1)
    (if BlockNumber result =? lastBlock st then lastBlock st
     else BlockNumber result).

Definition writer (st : state) (results : list TxResult) : state :=
  fold_left step results st.

(** Reading a field back. *)
Definition le32_decode (bs : list byte) : Z :=
  match bs with
  | [c0; c1; c2; c3] =>
      byte_val c0 + 256 * byte_val c1 + 65536 * byte_val c2
      + 16777216 * byte_val c3
  | _ => 0
  end.

(** The layout of one record. *)
Definition record_bytes (r : TxResult) : list byte :=
  le32 (u32 (BlockNumber r)) ++ le32 (Best r) ++ le32 (Fastlz r)
  ++ le32 (Zeroes r) ++ le32 (NonZeroes r).

(** The five fields of a 20-byte record, read back in order. *)
Definition decode_record (bs : list byte) : list Z :=
  [le32_decode (take 4 bs); le32_decode (take 4 (drop 4 bs));
   le32_decode (take 4 (drop 8 bs)); le32_decode (take 4 (drop 12 bs));
   le32_decode (take 4 (drop 16 bs))].

End Writer.

(** ** The block source *)

Module Source.

(** A [common.Hash] is a 256-bit number; the zero hash is [0]. *)
Definition Hash : Type := Z.

(** What [rawdb] reads from the local store. *)
Record Database : Type := mk_db {
  ReadHeaderNumber : Hash -> option Z;
  ReadHeadBlockHash : Hash;
  ReadCanonicalHash : Z -> Hash;
  ReadBlock : Hash -> Z -> option Block;
}.

Inductive error : Type := Err.

(** The [Client] interface. A call returns the client (a remote one may
    answer differently next time) with the block and the error. *)
Class Client (C : Type) : Type := {
  BlockByHash : C -> Hash -> C * (option Block * option error);
  BlockByNumber : C -> Z -> C * (option Block * option error);
}.

Definition int64 (x : Z) : Z := (x + 2 ^ 63) mod 2 ^ 64 - 2 ^ 63.
Definition uint64 (x : Z) : Z := x mod 2 ^ 64.

Definition local_BlockByHash (db : Database) (hash : Hash)
  : option Block * option error :=
  match ReadHeaderNumber db hash with
  | None => (None, None)
  | Some number => (ReadBlock db hash number, None)
  end.

Definition local_BlockByNumber (db : Database) (number : Z)
  : option Block * option error :=
  if int64 number <? 0 then local_BlockByHash db (ReadHeadBlockHash db)
  else
    let hash := ReadCanonicalHash db (uint64 number) in
    if hash =? 0 then (None, None)
    else (ReadBlock db hash (uint64 number), None).

#[global] Instance LocalClient : Client Database := {|
  BlockByHash db hash := (db, local_BlockByHash db hash);
  BlockByNumber db number := (db, local_BlockByNumber db number);
|}.

(** What one pass of a fetcher's [for blockNum := range blockNumChan] did:
    the calls made, the delays slept (milliseconds), the line logged and
    the job sent on [jobChan], if any. *)
Record fetched (C : Type) : Type := mk_fetched {
  client : C;
  calls : nat;
  slept : list Z;
  fetch_log : list log_line;
  pushed : option BlockJob;
}.
Arguments mk_fetched {C}.
Arguments client {C}.
Arguments calls {C}.
Arguments slept {C}.
Arguments fetch_log {C}.
Arguments pushed {C}.

Section Fetcher.

Context {C : Type} `{Client C}.

(** The retry loop: [left] attempts remain out of [maxRetries], the
    current one being number [attempt]. Returns the client, the last block
    and error, the calls made and the delays slept. *)
Fixpoint retry (left : nat) (attempt maxRetries retryDelay : Z) (c : C)
  (blockNum : Z) (last : option Block * option error)
  (ncalls : nat) (delays : list Z)
  : C * (option Block * option error) * nat * list Z :=
  match left with
  | O => (c, last, ncalls, delays)
  | S left' =>
      let '(c', (block, err)) := BlockByNumber c (int64 blockNum) in
      match err with
      | None => (c', (block, err), S ncalls, delays)
      | Some _ =>
          if attempt <? maxRetries - 1 then
            retry left' (attempt + 1) maxRetries (retryDelay * 2) c'
              blockNum (block, err) (S ncalls) (delays ++ [retryDelay])
          else
            retry left' (attempt + 1) maxRetries retryDelay c'
              blockNum (block, err) (S ncalls) delays
      end
  end.

Definition maxRetries : Z := 8.

Definition fetch (c : C) (blockNum : Z) : fetched C :=
  let '(c', (block, err), ncalls, delays) :=
    retry (Z.to_nat maxRetries) 0 maxRetries 100 c blockNum (None, None)
      O [] in
  match err with
  | Some _ => mk_fetched c' ncalls delays [LogFetchFailed blockNum] None
  | None => mk_fetched c' ncalls delays [] (Some (mk_job block))
  end.

End Fetcher.

(** A source that answers every call with an error. *)
#[global] Instance FailingClient : Client unit := {|
  BlockByHash c hash := (c, (None, Some Err));
  BlockByNumber c number := (c, (None, Some Err));
|}.

(** A store that holds no block at all. *)
Definition empty_db : Database :=
  mk_db (fun _ => None) 0 (fun _ => 0) (fun _ _ => None).

End Source.

Arguments u32 : simpl never.
Arguments Flz.literals : simpl never.
Arguments Flz.match_ : simpl never.
Arguments Flz.hash : simpl never.

Definition zeros (k : nat) : list byte := repeat x00 k.

(** ** Vocabulary of the statements *)

Module FlzSpec.
Import Flz.

(** A table of 8192 positions, none beyond [bound]. *)
Definition table_ok (bound : Z) (ht : list Z) : Prop :=
  length ht = Z.to_nat 8192 /\ Forall (fun x => 0 <= x <= bound) ht.

Definition no_panic {A} (P : A -> Prop) (m : res A) : Prop :=
  match m with
  | Ok a => P a
  | Panic => False
  | OutOfFuel => True
  end.

Definition is_u32 (x : Z) : Prop := 0 <= x < 2 ^ 32.

Definition table_wide (ht : list Z) : Prop :=
  length ht = Z.to_nat 8192 /\ Forall is_u32 ht.

(** The cost of the encoding worked out by hand for 1000 zero bytes: two
    literals, one match of 991 bytes against position 0, five literals. *)
Definition reference_cost : Z := literals 5 (match_ 991 (literals 2 0)).

End FlzSpec.

Module ZlibSpec.
Import Zlib.

Section WithEngine.

Context `{E : ZlibEngine}.

(** What a session emits for [Write(p)] then [Flush()], and the state it
    is left in. *)
Definition session (st : zstate) (p : list byte) : zstate * list byte :=
  let '(st1, o1) := z_write st p in
  let '(st2, o2) := z_flush st1 in
  (st2, o1 ++ o2).

(** Where the two writers send their output. [direct] is how
    [newZlibBatchEstimator] builds them. *)
Definition direct (e : zlibBatchEstimator E) : Prop :=
  dst (w0 e) = Slot0 /\ dst (w1 e) = Slot1.

Definition crossed (e : zlibBatchEstimator E) : Prop :=
  dst (w0 e) = Slot1 /\ dst (w1 e) = Slot0.

Definition merged (e : zlibBatchEstimator E) : Prop :=
  dst (w0 e) = Slot1 /\ dst (w1 e) = Slot1 /\ b0 e = [].

End WithEngine.

(** A short chunk to write repeatedly. *)
Definition chunk : list byte := zeros 10.

(** Three payloads that take a new estimator through its first rotation
    on the small engine. *)
Definition payloads : list (list byte) :=
  [zeros (Z.to_nat 60000); zeros (Z.to_nat 10000); zeros (Z.to_nat 62000)].

Definition writes {E : ZlibEngine} (e : zlibBatchEstimator E)
  (ps : list (list byte)) : zlibBatchEstimator E :=
  fold_left (fun e p => fst (write e p)) ps e.

Definition before_rotation : zlibBatchEstimator raw_engine :=
  writes newZlibBatchEstimator [zeros (Z.to_nat 60000); zeros (Z.to_nat 10000)].

End ZlibSpec.

Module WorkerSpec.
Import Worker.

(** The eligible transactions of a job list, in processing order: the
    block number and the serialized bytes of every transaction that is
    not a deposit and serializes without error. *)
Definition tx_stream (number : Z) (tx : Tx) : list (Z * list byte) :=
  if tx_is_deposit tx then []
  else match tx_binary tx with
       | None => []
       | Some raw => [(number, raw)]
       end.

Definition job_stream (job : BlockJob) : list (Z * list byte) :=
  match job_block job with
  | None => []
  | Some block => flat_map (tx_stream (NumberU64 block)) (Transactions block)
  end.

Definition stream (jobs : list BlockJob) : list (Z * list byte) :=
  flat_map job_stream jobs.

Definition small (x : Z * list byte) : Prop := len (snd x) < 2 ^ 32.

Section WithEngine.

Context `{E : ZlibEngine}.

(** How many eligible transactions the worker will still consume without
    sending a result. *)
Definition skip (cfg : config) (st : state E) : nat :=
  if bootstrapDone st then O
  else Z.to_nat (Z.max 1 (bootstrapTxs cfg - bootstrapCount st)).

Definition summary (r : TxResult) : Z * Z :=
  (BlockNumber r, Zeroes r + NonZeroes r).

Definition expected (cfg : config) (x : Z * list byte) : Z * Z :=
  (fst x, len (trim cfg (snd x))).

(** The invariant of the loops: the results sent are those of the stream
    read so far, less the ones consumed by the bootstrap. *)
Definition advances (cfg : config) (st st' : state E)
  (xs : list (Z * list byte)) : Prop :=
  map summary (sent st') =
    map summary (sent st) ++ map (expected cfg) (drop (skip cfg st) xs) /\
  skip cfg st' = (skip cfg st - length xs)%nat.

End WithEngine.

(** A block with two transactions, neither a deposit, both serializable. *)
Definition synthetic (number : Z) (x y : list byte) : BlockJob :=
  mk_job (Some (mk_block number [mk_tx false (Some x); mk_tx false (Some y)])).

Definition five_blocks (x0 y0 x1 y1 x2 y2 x3 y3 x4 y4 : list byte)
  : list BlockJob :=
  [synthetic 100 x0 y0; synthetic 101 x1 y1; synthetic 102 x2 y2;
   synthetic 103 x3 y3; synthetic 104 x4 y4].

Definition sample_tx : list byte := [x02; x00; x01; x00; xff].

End WorkerSpec.

(** ** The coordinator's range *)

Module Coordinator.
Import Source.

(** The loop [for blockNum := startBlockNum; blockNum > endBlock;
    blockNum--] of the coordinator, on [uint64] numbers: the block
    numbers sent on [blockNumChan], in the order they are sent. *)
Fixpoint descend (fuel : nat) (blockNum endBlock : Z) : res (list Z) :=
  if endBlock <? blockNum then
    match fuel with
    | O => OutOfFuel
    | S fuel' =>
        rest ← descend fuel' (uint64 (blockNum - 1)) endBlock;
        Ok (blockNum :: rest)
    end
  else Ok [].

Definition blockNumbers (startBlockNum endBlock : Z) : res (list Z) :=
  descend (Z.to_nat startBlockNum) startBlockNum endBlock.

End Coordinator.

(** ** Vocabulary for the block source and the writer *)

Module SourceSpec.
Import Source.

Section WithClient.

Context {C : Type} `{Client C}.



End WithClient.


(** A source that fails as many times as its state says, then answers
    with an empty block of the number asked for. *)
#[global] Instance FlakyClient : Client nat := {|
  BlockByHash c hash :=
    match c with
    | O => (O, (None, None))
    | S c' => (c', (None, Some Err))
    end;
  BlockByNumber c number :=
    match c with
    | O => (O, (Some (mk_block number []), None))
    | S c' => (c', (None, Some Err))
    end;
|}.

End SourceSpec.

Module WriterSpec.
Import Writer.

(** The fields of a result as the file holds them. *)
Definition fields (r : TxResult) : list Z :=
  [u32 (BlockNumber r); u32 (Best r); u32 (Fastlz r); u32 (Zeroes r);
   u32 (NonZeroes r)].

(** Reading [n] records back from a file: record boundaries are every 20
    bytes. *)
Fixpoint decode_records (n : nat) (bs : list byte) : list (list Z) :=
  match n with
  | O => []
  | S n' => decode_record (take 20 bs) :: decode_records n' (drop 20 bs)
  end.

Definition decode_output (bs : list byte) : list (list Z) :=
  decode_records (length bs / 20) bs.

End WriterSpec.

(** ** Vocabulary for runs of the estimator and of the worker *)

Module ZlibTrace.
Import Zlib ZlibSpec.

Section WithEngine.

Context `{E : ZlibEngine}.

(** What [write] returns for each of a list of payloads written in turn. *)
Fixpoint deltas (e : zlibBatchEstimator E) (ps : list (list byte))
  : list Z :=
  match ps with
  | [] => []
  | p :: ps' => snd (write e p) :: deltas (fst (write e p)) ps'
  end.

(** What one session emits for each of a list of payloads, each written
    and flushed in turn, and the state it ends in. *)
Fixpoint emitted (st : zstate) (ps : list (list byte)) : list (list byte) :=
  match ps with
  | [] => []
  | p :: ps' => snd (session st p) :: emitted (fst (session st p)) ps'
  end.

Fixpoint session_end (st : zstate) (ps : list (list byte)) : zstate :=
  match ps with
  | [] => st
  | p :: ps' => session_end (fst (session st p)) ps'
  end.

(** No write of the list rotates. *)
Fixpoint quiet (e : zlibBatchEstimator E) (ps : list (list byte)) : bool :=
  match ps with
  | [] => true
  | p :: ps' => negb (rotates e p) && quiet (fst (write e p)) ps'
  end.

(** How many writes of the list rotate. *)
Fixpoint rotations (e : zlibBatchEstimator E) (ps : list (list byte)) : nat :=
  match ps with
  | [] => O
  | p :: ps' =>
      ((if rotates e p then 1 else 0) + rotations (fst (write e p)) ps')%nat
  end.

(** The payloads of a list from the first one that leaves more than 64KB
    in b[1] after being written to w[1]. *)
Fixpoint mirrored (e : zlibBatchEstimator E) (ps : list (list byte))
  : list (list byte) :=
  match ps with
  | [] => []
  | p :: ps' =>
      if 64 * 1024 <? len (b1 (after_b e p)) then p :: ps'
      else mirrored (fst (write e p)) ps'
  end.

End WithEngine.

(** An emitted length less the two flush bytes, as [write] returns it. *)
Definition clamp (emitted_len : Z) : Z :=
  if emitted_len - 2 <? 0 then 0 else u32 (emitted_len - 2).

(** The small engine's estimator just after its first rotation and just
    after its second. *)
Definition run_to_crossed : zlibBatchEstimator raw_engine :=
  writes newZlibBatchEstimator payloads.

Definition run_to_merged : zlibBatchEstimator raw_engine :=
  writes newZlibBatchEstimator (payloads ++ [zeros (Z.to_nat 60000)]).

End ZlibTrace.

Module WorkerTrace.
Import Worker WorkerSpec.

Section WithEngine.

Context `{E : ZlibEngine}.


(** The worker's variables and what it has sent, without its log. *)
Definition core (st : state E)
  : Zlib.zlibBatchEstimator E * Z * bool * list TxResult :=
  (zlibBestBatchEstimator st, bootstrapCount st, bootstrapDone st, sent st).

Definition same_core (x y : res (state E)) : Prop :=
  match x, y with
  | Ok s, Ok t => core s = core t
  | Panic, Panic => True
  | OutOfFuel, OutOfFuel => True
  | _, _ => False
  end.

(** The loop body applied to the elements of a stream, each as a
    transaction that is no deposit and serializes. *)
Fixpoint feed (cfg : config) (st : state E) (xs : list (Z * list byte))
  : res (state E) :=
  match xs with
  | [] => Ok st
  | x :: xs' =>
      st' ← process_tx cfg (fst x) st (mk_tx false (Some (snd x)));
      feed cfg st' xs'
  end.

End WithEngine.

(** Two job lists with the same eligible stream: the second has a nil
    block, a deposit and a transaction that fails to serialize on top. *)
Definition plain_jobs : list BlockJob :=
  [mk_job (Some (mk_block 100 [mk_tx false (Some sample_tx)]));
   mk_job (Some (mk_block 101 [mk_tx false (Some sample_tx)]))].

Definition noisy_jobs : list BlockJob :=
  [mk_job None;
   mk_job (Some (mk_block 100 [mk_tx true (Some sample_tx);
                               mk_tx false (Some sample_tx);
                               mk_tx false None]));
   mk_job (Some (mk_block 101 [mk_tx false (Some sample_tx)]))].

End WorkerTrace.

(** ** Facts about machine integers *)

Lemma u32_range x : 0 <= u32 x < 2 ^ 32.
Proof. unfold u32. apply Z.mod_pos_bound. lia. Qed.

Lemma u32_small x : 0 <= x < 2 ^ 32 -> u32 x = x.
Proof. intros H. unfold u32. apply Z.mod_small. exact H. Qed.


Lemma len_nonneg b : 0 <= len b.
Proof. unfold len. lia. Qed.

Module FlzFacts.
Import Flz FlzSpec.

Section WithInput.

Variable ib : list byte.

Lemma rd_ok i : 0 <= i < len ib -> exists v, rd ib i = Ok v.
Proof.
  intros H. unfold rd.
  destruct (ib !! Z.to_nat i) as [b|] eqn:E; [eauto|].
  apply lookup_ge_None in E. unfold len in H. lia.
Qed.

Lemma u24_ok i :
  0 <= i -> i + 2 < len ib -> len ib <= 2 ^ 32 \/ i + 2 < 2 ^ 32 ->
  exists s, u24 ib i = Ok s.
Proof.
  intros H0 H1 H2. unfold u24.
  assert (Hi : i + 2 < 2 ^ 32) by lia.
  destruct (rd_ok i) as [b0 E0]; [lia|].
  destruct (rd_ok (i + 1)) as [b1 E1]; [lia|].
  destruct (rd_ok (i + 2)) as [b2 E2]; [lia|].
  rewrite E0. cbn. rewrite (u32_small (i + 1)) by lia. rewrite E1. cbn.
  rewrite (u32_small (i + 2)) by lia. rewrite E2. cbn. eauto.
Qed.

Lemma hash_range v : 0 <= hash v < 8192.
Proof.
  unfold hash.
  change 8191 with (Z.ones 13). rewrite Z.land_ones by lia.
  change 8192 with (2 ^ 13). apply Z.mod_pos_bound. lia.
Qed.

Lemma ht_get_ok (ht : list Z) h :
  length ht = Z.to_nat 8192 -> 0 <= h < 8192 ->
  exists v, ht_get ht h = Ok v /\ ht !! Z.to_nat h = Some v.
Proof.
  intros Hl Hh. unfold ht_get.
  destruct (ht !! Z.to_nat h) as [v|] eqn:E; [eauto|].
  apply lookup_ge_None in E. lia.
Qed.

Lemma ht_set_ok (ht : list Z) h v :
  length ht = Z.to_nat 8192 -> 0 <= h < 8192 ->
  ht_set ht h v = Ok (<[Z.to_nat h := v]> ht).
Proof.
  intros Hl Hh. unfold ht_set.
  destruct (Nat.ltb_spec (Z.to_nat h) (length ht)); [reflexivity|lia].
Qed.

(** *** Inputs that fit a [uint32] length and reach the match finder *)

Lemma table_ok_mono b b' ht : b <= b' -> table_ok b ht -> table_ok b' ht.
Proof.
  intros Hb [Hl Hf]. split; [exact Hl|].
  eapply Forall_impl; [exact Hf|]. cbn. intros; lia.
Qed.

Lemma table_ok_insert b ht h v :
  0 <= v <= b -> table_ok b ht -> table_ok b (<[Z.to_nat h := v]> ht).
Proof.
  intros Hv [Hl Hf]. split.
  - rewrite length_insert. exact Hl.
  - apply Forall_insert; assumption.
Qed.

Lemma table_ok_empty : table_ok 0 empty_table.
Proof.
  split.
  - unfold empty_table. apply length_replicate.
  - unfold empty_table. apply Forall_replicate. lia.
Qed.

Lemma cmp_loop_ok fuel : forall p q e l,
  0 <= l -> 0 <= p <= q -> q + e <= len ib -> len ib < 2 ^ 32 ->
  (Z.to_nat (e - l) <= fuel)%nat ->
  exists l', cmp_loop ib fuel p q e l = Ok l' /\
             (l < e -> l + 1 <= l' <= e) /\ (e <= l -> l' = l).
Proof.
  induction fuel as [|fuel IH]; intros p q e l Hl Hpq He Hlen Hf.
  - assert (e <= l) by lia. cbn.
    destruct (Z.ltb_spec l e); [lia|]. exists l. repeat split; lia.
  - cbn. destruct (Z.ltb_spec l e) as [Hlt|Hge].
    + destruct (rd_ok (p + l)) as [x Ex]; [lia|].
      destruct (rd_ok (q + l)) as [y Ey]; [lia|].
      rewrite (u32_small (p + l)) by lia. rewrite Ex. cbn.
      rewrite (u32_small (q + l)) by lia. rewrite Ey. cbn.
      rewrite (u32_small (l + 1)) by lia.
      destruct (x =? y).
      * destruct (IH p q e (l + 1)) as (l' & E & H1 & H2); try lia.
        exists l'. split; [exact E|]. split; [|lia].
        intros _. destruct (Z.lt_ge_cases (l + 1) e); lia.
      * destruct (IH p q 0 (l + 1)) as (l' & E & H1 & H2); try lia.
        exists l'. split; [exact E|]. split; lia.
    + exists l. repeat split; lia.
Qed.

Lemma setNextHash_ok ip ht b :
  0 <= ip -> ip + 2 < len ib -> len ib < 2 ^ 32 -> ip <= b ->
  table_ok b ht ->
  exists ht', setNextHash ib ip ht = Ok (ip + 1, ht') /\ table_ok b ht'.
Proof.
  intros H0 H1 H2 Hb Ht. unfold setNextHash.
  destruct (u24_ok ip) as [s Es]; [lia..|]. rewrite Es. cbn.
  rewrite ht_set_ok; [|apply Ht|apply hash_range]. cbn.
  rewrite (u32_small (ip + 1)) by lia.
  eexists. split; [reflexivity|]. apply table_ok_insert; [lia|exact Ht].
Qed.

Section Scanned.

Hypothesis Hlo : 13 <= len ib.
Hypothesis Hhi : len ib < 2 ^ 32.

Lemma ipLimit_eq : ipLimit ib = len ib - 13.
Proof.
  unfold ipLimit. destruct (Z.ltb_spec (len ib) 13); [lia|].
  rewrite (u32_small (len ib)) by lia. apply u32_small. lia.
Qed.

Lemma probe_ok fuel : forall ip ht,
  0 <= ip <= ipLimit ib -> table_ok ip ht ->
  (Z.to_nat (ipLimit ib - ip) < fuel)%nat ->
  exists ip1 r ht1,
    probe ib fuel ip ht = Ok (ip1, r, ht1) /\
    ip <= ip1 <= ipLimit ib /\ table_ok ip1 ht1 /\
    (ip1 < ipLimit ib ->
     ip + 1 <= ip1 /\ 0 <= r <= ip1 - 1 /\ table_ok (ip1 - 1) ht1).
Proof.
  pose proof ipLimit_eq as HL.
  induction fuel as [|fuel IH]; intros ip ht Hip Ht Hf; [lia|].
  cbn [probe].
  destruct (u24_ok ip) as [s Es]; [lia..|]. rewrite Es. cbn.
  destruct (ht_get_ok ht (hash s)) as (r & Er & Hr);
    [apply Ht|apply hash_range|].
  rewrite Er. cbn.
  rewrite ht_set_ok; [|apply Ht|apply hash_range]. cbn.
  assert (Hrr : 0 <= r <= ip).
  { destruct Ht as [_ Hall]. exact (Forall_lookup_1 _ _ _ _ Hall Hr). }
  set (ht' := <[Z.to_nat (hash s) := ip]> ht).
  assert (Ht' : table_ok ip ht').
  { apply table_ok_insert; [lia|exact Ht]. }
  destruct (Z.leb_spec (ipLimit ib) ip) as [Hge|Hlt].
  { exists ip, r, ht'. split; [reflexivity|]. split; [lia|].
    split; [exact Ht'|]. intros Hc. lia. }
  rewrite (u32_small (ip + 1)) by lia.
  assert (Hrec : exists ip1 r1 ht1,
             probe ib fuel (ip + 1) ht' = Ok (ip1, r1, ht1) /\
             ip <= ip1 <= ipLimit ib /\ table_ok ip1 ht1 /\
             (ip1 < ipLimit ib ->
              ip + 1 <= ip1 /\ 0 <= r1 <= ip1 - 1 /\
              table_ok (ip1 - 1) ht1)).
  { destruct (IH (ip + 1) ht') as (ip1 & r1 & ht1 & E & H1 & H2 & H3);
      [lia|apply (table_ok_mono ip); [lia|exact Ht']|lia|].
    exists ip1, r1, ht1. split; [exact E|]. split; [lia|].
    split; [exact H2|]. intros Hc. destruct (H3 Hc) as (? & ? & ?).
    split; [lia|]. split; [lia|assumption]. }
  destruct (u32 (ip - r) <=? 8191); [|exact Hrec].
  destruct (u24_ok r) as [sr Esr]; [lia..|]. rewrite Esr. cbn.
  destruct (s =? sr); [|exact Hrec].
  exists (ip + 1), r, ht'. split; [reflexivity|]. split; [lia|].
  split; [apply (table_ok_mono ip); [lia|exact Ht']|].
  intros _. replace (ip + 1 - 1) with ip by lia.
  split; [lia|]. split; [lia|exact Ht'].
Qed.

Lemma scan_ok fuel : forall ip a n ht,
  0 <= ip <= len ib - 5 -> table_ok ip ht ->
  (Z.to_nat (ipLimit ib - ip) <= fuel)%nat ->
  exists a' n' ht', scan ib fuel ip a n ht = Ok (a', n', ht').
Proof.
  pose proof ipLimit_eq as HL.
  induction fuel as [|fuel IH]; intros ip a n ht Hip Ht Hf.
  - cbn. destruct (Z.ltb_spec ip (ipLimit ib)); [lia|eauto].
  - cbn [scan]. destruct (Z.ltb_spec ip (ipLimit ib)) as [Hlt|Hge]; [|eauto].
    destruct (probe_ok (length ib) ip ht)
      as (ip1 & r & ht1 & E & H1 & H2 & H3);
      [lia|exact Ht|unfold len in *; lia|].
    rewrite E. cbn.
    destruct (Z.leb_spec (ipLimit ib) ip1) as [Hge1|Hlt1]; [eauto|].
    destruct (H3 Hlt1) as (Hadv & Hr & Ht1).
    rewrite (u32_small (ip1 - 1)) by lia.
    set (ip2 := ip1 - 1) in *.
    unfold cmp.
    rewrite (u32_small (r + 3)), (u32_small (ip2 + 3)),
      (u32_small (ipLimit ib + 9)) by lia.
    rewrite (u32_small (ipLimit ib + 9 - (ip2 + 3))) by lia.
    destruct (cmp_loop_ok (Z.to_nat (ipLimit ib + 9 - (ip2 + 3)))
                (r + 3) (ip2 + 3) (ipLimit ib + 9 - (ip2 + 3)) 0)
      as (l & El & Hl1 & _); try lia.
    rewrite El. cbn.
    assert (Hl : 1 <= l <= ipLimit ib + 6 - ip2) by lia.
    rewrite (u32_small (ip2 + l)) by lia.
    destruct (setNextHash_ok (ip2 + l) ht1 (ip2 + l + 2))
      as (ht2 & E2 & Ht2); try lia.
    { apply (table_ok_mono ip2); [lia|exact Ht1]. }
    rewrite E2. cbn.
    destruct (setNextHash_ok (ip2 + l + 1) ht2 (ip2 + l + 2))
      as (ht3 & E3 & Ht3); try lia; [exact Ht2|].
    rewrite E3. cbn.
    replace (ip2 + l + 1 + 1) with (ip2 + l + 2) by lia.
    apply IH; [lia|exact Ht3|lia].
Qed.

End Scanned.

(** *** Inputs whose length does not fit a [uint32]

  Every index is a [uint32], hence below the length: no read can
  fail, whatever the (truncated) scan limit is. *)

Lemma no_panic_bind {A B} (P : A -> Prop) (Q : B -> Prop) m (k : A -> res B) :
  no_panic P m -> (forall a, P a -> no_panic Q (k a)) ->
  no_panic Q (m ≫= k).
Proof. destruct m; cbn; auto. Qed.

Lemma no_panic_weaken {A} (P Q : A -> Prop) m :
  no_panic P m -> (forall a, P a -> Q a) -> no_panic Q m.
Proof. destruct m; cbn; auto. Qed.

Section Wide.

Hypothesis Hbig : 2 ^ 32 <= len ib.

Lemma rd_wide i : is_u32 i -> no_panic (fun _ => True) (rd ib i).
Proof.
  intros Hi. destruct (rd_ok i) as [v E]; [unfold is_u32 in Hi; lia|].
  rewrite E. exact I.
Qed.

Lemma u24_wide i : is_u32 i -> no_panic (fun _ => True) (u24 ib i).
Proof.
  intros Hi. unfold u24.
  eapply no_panic_bind; [apply rd_wide, Hi|]. intros b0 _.
  eapply no_panic_bind; [apply rd_wide, u32_range|]. intros b1 _.
  eapply no_panic_bind; [apply rd_wide, u32_range|]. intros b2 _.
  exact I.
Qed.

Lemma cmp_loop_wide fuel : forall p q e l,
  no_panic (fun _ => True) (cmp_loop ib fuel p q e l).
Proof.
  induction fuel as [|fuel IH]; intros p q e l; cbn [cmp_loop];
    destruct (l <? e); try exact I.
  eapply no_panic_bind; [apply rd_wide, u32_range|]. intros x _.
  eapply no_panic_bind; [apply rd_wide, u32_range|]. intros y _.
  apply IH.
Qed.

Lemma ht_set_wide ht h v :
  table_wide ht -> is_u32 v -> no_panic table_wide (ht_set ht (hash h) v).
Proof.
  intros Ht Hv. rewrite ht_set_ok; [|apply Ht|apply hash_range].
  cbn. destruct Ht as [Hl Hf]. split.
  - rewrite length_insert. exact Hl.
  - apply Forall_insert; assumption.
Qed.

Lemma setNextHash_wide ip ht :
  is_u32 ip -> table_wide ht ->
  no_panic (fun '(ip', ht') => is_u32 ip' /\ table_wide ht')
           (setNextHash ib ip ht).
Proof.
  intros Hi Ht. unfold setNextHash.
  eapply no_panic_bind; [apply u24_wide, Hi|]. intros s _.
  eapply no_panic_bind; [apply ht_set_wide; eassumption|].
  intros ht' Ht'. cbn. split; [apply u32_range|exact Ht'].
Qed.

Lemma probe_wide fuel : forall ip ht,
  is_u32 ip -> table_wide ht ->
  no_panic (fun '(ip1, r, ht1) =>
              is_u32 ip1 /\ is_u32 r /\ table_wide ht1)
           (probe ib fuel ip ht).
Proof.
  induction fuel as [|fuel IH]; intros ip ht Hi Ht; [exact I|].
  cbn [probe].
  eapply no_panic_bind; [apply u24_wide, Hi|]. intros s _.
  destruct (ht_get_ok ht (hash s)) as (r & Er & Hr);
    [apply Ht|apply hash_range|].
  rewrite Er. cbn.
  assert (Hrr : is_u32 r).
  { destruct Ht as [_ Hall]. exact (Forall_lookup_1 _ _ _ _ Hall Hr). }
  eapply no_panic_bind; [apply ht_set_wide; eassumption|].
  intros ht' Ht'.
  destruct (ipLimit ib <=? ip); [cbn; auto|].
  assert (Hrec : no_panic (fun '(ip1, r, ht1) =>
                    is_u32 ip1 /\ is_u32 r /\ table_wide ht1)
                   (probe ib fuel (u32 (ip + 1)) ht')).
  { apply IH; [apply u32_range|exact Ht']. }
  destruct (u32 (ip - r) <=? 8191); [|exact Hrec].
  eapply no_panic_bind; [apply u24_wide, Hrr|]. intros sr _.
  destruct (s =? sr); [|exact Hrec].
  cbn. split; [apply u32_range|]. split; assumption.
Qed.

Lemma scan_wide fuel : forall ip a n ht,
  is_u32 ip -> table_wide ht ->
  no_panic (fun _ => True) (scan ib fuel ip a n ht).
Proof.
  induction fuel as [|fuel IH]; intros ip a n ht Hi Ht; cbn [scan];
    destruct (ip <? ipLimit ib); try exact I.
  eapply no_panic_bind; [apply probe_wide; eassumption|].
  intros [[ip1 r] ht1] (H1 & Hr & Ht1).
  destruct (ipLimit ib <=? ip1); [exact I|].
  eapply no_panic_bind; [apply cmp_loop_wide|]. intros l _.
  eapply no_panic_bind;
    [apply setNextHash_wide; [apply u32_range|exact Ht1]|].
  intros [ip3 ht2] [H3 Ht2].
  eapply no_panic_bind; [apply setNextHash_wide; eassumption|].
  intros [ip4 ht3] [H4 Ht3].
  apply IH; assumption.
Qed.

End Wide.

Lemma table_wide_empty : table_wide empty_table.
Proof.
  split.
  - unfold empty_table. apply length_replicate.
  - unfold empty_table. apply Forall_replicate. unfold is_u32. lia.
Qed.

(** *** Summary: the scan of any input *)

Lemma scan_result_total :
  len ib < 2 ^ 32 -> exists a n ht, scan_result ib = Ok (a, n, ht).
Proof.
  intros Hhi. unfold scan_result.
  destruct (Z.lt_ge_cases (len ib) 13) as [Hs|Hl].
  - assert (HL : ipLimit ib = 0).
    { unfold ipLimit. destruct (Z.ltb_spec (len ib) 13); [reflexivity|lia]. }
    destruct (length ib); cbn [scan]; rewrite HL; cbn; eauto.
  - rewrite (u32_small (0 + 2)) by lia.
    apply scan_ok; try assumption.
    + lia.
    + apply (table_ok_mono 0); [lia|apply table_ok_empty].
    + rewrite (ipLimit_eq Hl Hhi). unfold len. lia.
Qed.

Lemma scan_result_no_panic : no_panic (fun _ => True) (scan_result ib).
Proof.
  destruct (Z.lt_ge_cases (len ib) (2 ^ 32)) as [Hhi|Hbig].
  - destruct (scan_result_total Hhi) as (a & n & ht & E).
    rewrite E. exact I.
  - apply scan_wide; [exact Hbig|apply u32_range|apply table_wide_empty].
Qed.

End WithInput.

End FlzFacts.

(** ** Facts about the zlib batch estimator *)

Module ZlibFacts.
Import Zlib ZlibSpec.

Section WithEngine.

Context `{E : ZlibEngine}.

Lemma write_flush_session i p e :
  write_flush i p e =
  let w := wr e i in
  set_wr (set_buf e (dst w) (buf e (dst w) ++ snd (session (zst w) p)))
    i (mk_zwriter (dst w) (fst (session (zst w) p))).
Proof.
  unfold write_flush, call, session.
  destruct e as [c0 c1 [d0 s0] [d1 s1]].
  destruct i; cbn;
    [destruct (z_write s0 p) as [st1 o1]|destruct (z_write s1 p) as [st1 o1]];
    (destruct d0, d1; cbn; destruct (z_flush st1) as [st2 o2]; cbn;
     rewrite <- ?app_assoc; reflexivity).
Qed.

Lemma len_app (x y : list byte) : len (x ++ y) = len x + len y.
Proof. unfold len. rewrite length_app. lia. Qed.

(** The write to [w[1]] changes [b[1]] exactly when [w[1]] has [&b[1]]
    as its destination. *)
Lemma after_b_buf1 e p :
  b1 (after_b e p) =
  match dst (w1 e) with
  | Slot1 => b1 e ++ snd (session (zst (w1 e)) p)
  | Slot0 => b1 e
  end.
Proof.
  unfold after_b. rewrite write_flush_session.
  destruct e as [c0 c1 [d0 s0] [d1 s1]]. cbn. destruct d1; reflexivity.
Qed.

Lemma after_b_w1 e p :
  w1 (after_b e p) =
  mk_zwriter (dst (w1 e)) (fst (session (zst (w1 e)) p)).
Proof.
  unfold after_b. rewrite write_flush_session.
  destruct e as [c0 c1 [d0 s0] [d1 s1]]. cbn. destruct d1; reflexivity.
Qed.

Lemma after_mirror_w1 e p : w1 (after_mirror e p) = w1 (after_b e p).
Proof.
  unfold after_mirror.
  destruct (64 * 1024 <? len (buf (after_b e p) Slot1)); [|reflexivity].
  rewrite write_flush_session.
  destruct (after_b e p) as [c0 c1 [d0 s0] [d1 s1]]. cbn.
  destruct d0; reflexivity.
Qed.

Lemma write_flush_dst0 i p e : dst (w0 (write_flush i p e)) = dst (w0 e).
Proof.
  rewrite write_flush_session.
  destruct e as [c0 c1 [d0 s0] [d1 s1]], i; cbn;
    try destruct d0; try destruct d1; reflexivity.
Qed.

Lemma after_b_dst0 e p : dst (w0 (after_b e p)) = dst (w0 e).
Proof. apply write_flush_dst0. Qed.

Lemma after_mirror_dst0 e p : dst (w0 (after_mirror e p)) = dst (w0 e).
Proof.
  unfold after_mirror.
  destruct (64 * 1024 <? len (buf (after_b e p) Slot1)).
  - rewrite write_flush_dst0. apply after_b_dst0.
  - apply after_b_dst0.
Qed.

Lemma after_mirror_dst1 e p : dst (w1 (after_mirror e p)) = dst (w1 e).
Proof. rewrite after_mirror_w1, after_b_w1. reflexivity. Qed.

(** Once both writers have [&b[1]] as destination, nothing is written
    into [b[0]] any more. *)
Lemma after_mirror_b0_merged e p :
  dst (w0 e) = Slot1 -> dst (w1 e) = Slot1 ->
  b0 (after_mirror e p) = b0 e.
Proof.
  intros H0 H1. unfold after_mirror, after_b. rewrite !write_flush_session.
  destruct e as [c0 c1 [d0 s0] [d1 s1]]. cbn in *. subst. cbn.
  destruct (64 * 1024 <? len (c1 ++ snd (session s1 p))); reflexivity.
Qed.

Lemma write_fst e p :
  fst (write e p) =
  if rotates e p then rotate (after_mirror e p) else after_mirror e p.
Proof. reflexivity. Qed.

Lemma write_snd e p :
  snd (write e p) =
  let d := len (b1 (after_b e p)) - len (b1 e) - 2 in
  if d <? 0 then 0 else u32 d.
Proof. reflexivity. Qed.

(** A write through a session whose destination is [&b[0]] is measured
    on a buffer it does not touch. *)
Lemma write_crossed_zero e p : dst (w1 e) = Slot0 -> snd (write e p) = 0.
Proof.
  intros Hd. rewrite write_snd, after_b_buf1, Hd. cbn.
  destruct (Z.ltb_spec (len (b1 e) - len (b1 e) - 2) 0); [reflexivity|lia].
Qed.

Lemma write_direct e p :
  dst (w1 e) = Slot1 ->
  snd (write e p) =
  let d := len (snd (session (zst (w1 e)) p)) - 2 in
  if d <? 0 then 0 else u32 d.
Proof.
  intros Hd. rewrite write_snd, after_b_buf1, Hd. cbn.
  rewrite len_app.
  replace (len (b1 e) + len (snd (session (zst (w1 e)) p)) - len (b1 e) - 2)
    with (len (snd (session (zst (w1 e)) p)) - 2) by lia.
  reflexivity.
Qed.

Lemma rotate_fields e :
  rotate e =
  mk_estimator [] (b0 e) (mk_zwriter Slot1 z_fresh) (w0 e).
Proof. destruct e as [c0 c1 u0 u1]. reflexivity. Qed.

End WithEngine.

End ZlibFacts.

(** ** Properties of the zlib batch estimator *)

Module ZlibProps.
Import Zlib ZlibSpec ZlibFacts.

Lemma reachable_writes {E : ZlibEngine} ps : forall e : zlibBatchEstimator E,
  reachable e -> reachable (writes e ps).
Proof.
  induction ps as [|p ps IH]; intros e He; [exact He|].
  cbn. apply IH. apply reach_write. exact He.
Qed.

(** Until the first rotation each writer keeps filling the buffer of its
    own index. *)
Lemma direct_preserved {E : ZlibEngine} (e : zlibBatchEstimator E) p :
  dst (w0 e) = Slot0 -> dst (w1 e) = Slot1 -> rotates e p = false ->
  dst (w0 (fst (write e p))) = Slot0 /\ dst (w1 (fst (write e p))) = Slot1.
Proof.
  intros H0 H1 Hr. rewrite write_fst, Hr.
  rewrite after_mirror_w1, after_b_w1. cbn. split; [|exact H1].
  unfold after_mirror, after_b. rewrite !write_flush_session.
  destruct e as [c0 c1 [d0 s0] [d1 s1]]. cbn in *. subst. cbn.
  destruct (64 * 1024 <? len (c1 ++ snd (session s1 p))); reflexivity.
Qed.

(** How a write moves the estimator between the three arrangements. *)
Lemma write_arrangement {E : ZlibEngine} (e : zlibBatchEstimator E) p :
  (direct e ->
   if rotates e p then crossed (fst (write e p))
   else direct (fst (write e p))) /\
  (crossed e ->
   if rotates e p then merged (fst (write e p))
   else crossed (fst (write e p))) /\
  (merged e ->
   merged (fst (write e p)) /\
   (rotates e p = true -> b1 (fst (write e p)) = [])).
Proof.
  pose proof (after_mirror_dst0 e p) as D0.
  pose proof (after_mirror_dst1 e p) as D1.
  rewrite write_fst. unfold direct, crossed, merged.
  split; [|split].
  - intros [H0 H1]. destruct (rotates e p); rewrite ?rotate_fields; cbn;
      split; congruence.
  - intros [H0 H1]. destruct (rotates e p); rewrite ?rotate_fields; cbn;
      repeat split; congruence.
  - intros (H0 & H1 & Hb).
    pose proof (after_mirror_b0_merged e p H0 H1) as B0.
    destruct (rotates e p); rewrite ?rotate_fields; cbn;
      repeat split; congruence.
Qed.

(** Every state the worker can hold is in one of the three arrangements:
    [direct] up to the first rotation, [crossed] from the first to the
    second, [merged] from then on. *)
Lemma reachable_arrangement {E : ZlibEngine} (e : zlibBatchEstimator E) :
  reachable e -> direct e \/ crossed e \/ merged e.
Proof.
  induction 1 as [|e p He IH].
  - left. split; reflexivity.
  - destruct (write_arrangement e p) as (Hd & Hc & Hm).
    destruct IH as [H|[H|H]].
    + specialize (Hd H). destruct (rotates e p); auto.
    + specialize (Hc H). destruct (rotates e p); auto.
    + right. right. apply Hm, H.
Qed.

(** What the code itself guarantees on the length of b[1]: at most 128KB
    after a write that does not rotate; after one that does, b[1] is what
    b[0] was, whose length is compared with nothing. *)
Lemma length_without_rotation {E : ZlibEngine} (e : zlibBatchEstimator E) p :
  rotates e p = false -> len (b1 (fst (write e p))) <= 128 * 1024.
Proof.
  intros Hr. rewrite write_fst, Hr. unfold rotates in Hr. cbn [buf] in Hr.
  destruct (Z.ltb_spec (128 * 1024) (len (b1 (after_mirror e p))));
    [discriminate|assumption].
Qed.

Lemma length_after_rotation {E : ZlibEngine} (e : zlibBatchEstimator E) p :
  rotates e p = true ->
  b1 (fst (write e p)) = b0 (after_mirror e p) /\ b0 (fst (write e p)) = [].
Proof.
  intros Hr. rewrite write_fst, Hr, rotate_fields. split; reflexivity.
Qed.

(** C4: the value returned by [write] is the growth of b[1] across the
    write and flush of w[1], less the two flush bytes, clamped at zero;
    the returned [uint32] is never negative. The value is that clamped
    growth converted to [uint32], as in the source, and so the clamped
    growth itself whenever it fits 32 bits. *)
Theorem write_returns_clamped_growth {E : ZlibEngine}
  (e : zlibBatchEstimator E) (p : list byte) :
  let pre_len := len (buf e Slot1) in
  let post_len := len (buf (after_b e p) Slot1) in
  0 <= snd (write e p) /\
  snd (write e p) = u32 (Z.max 0 (post_len - pre_len - 2)) /\
  (post_len - pre_len - 2 < 2 ^ 32 ->
   snd (write e p) = Z.max 0 (post_len - pre_len - 2)).
Proof.
  cbn zeta. rewrite write_snd. cbn [buf]. cbn zeta.
  set (d := len (b1 (after_b e p)) - len (b1 e) - 2).
  destruct (Z.ltb_spec d 0) as [Hneg|Hpos].
  - replace (Z.max 0 d) with 0 by lia.
    split; [lia|]. split; [reflexivity|]. intros _. reflexivity.
  - replace (Z.max 0 d) with d by lia.
    split; [apply u32_range|]. split; [reflexivity|]. intros Hd.
    apply u32_small. lia.
Qed.

Lemma write_returns_clamped_growth_witness :
  snd (write (newZlibBatchEstimator (E := raw_engine)) chunk) = 12.
Proof.
  destruct (write_returns_clamped_growth
              (newZlibBatchEstimator (E := raw_engine)) chunk) as (_ & _ & H).
  rewrite H; [reflexivity|].
  vm_compute. reflexivity.
Defined.

(** C1 (the code departs from it): a rotation out of the initial
    arrangement swaps the buffers and the writers, but each writer keeps
    the destination slot it was created on. After it b[1] holds the stale
    bytes of the old b[0] and b[0] is empty, yet w[1] writes into b[0]:
    the next write leaves b[1] as it was, puts its output in b[0] and
    returns 0. *)
Theorem rotation_leaves_writers_crossed {E : ZlibEngine}
  (e : zlibBatchEstimator E) (p : list byte) :
  dst (w0 e) = Slot0 -> dst (w1 e) = Slot1 -> rotates e p = true ->
  let e' := fst (write e p) in
  b1 e' = b0 (after_mirror e p) /\
  b0 e' = [] /\
  w0 e' = mk_zwriter Slot1 z_fresh /\
  w1 e' = w0 (after_mirror e p) /\
  dst (w1 e') = Slot0 /\
  forall q,
    b1 (after_b e' q) = b1 e' /\
    b0 (after_b e' q) = snd (session (zst (w1 e')) q) /\
    snd (write e' q) = 0.
Proof.
  intros H0 H1 Hr. cbn zeta. rewrite write_fst, Hr, rotate_fields. cbn.
  assert (Hd : dst (w0 (after_mirror e p)) = Slot0).
  { unfold after_mirror, after_b. rewrite !write_flush_session.
    destruct e as [c0 c1 [d0 s0] [d1 s1]]. cbn in *. subst. cbn.
    destruct (64 * 1024 <? len (c1 ++ snd (session s1 p))); reflexivity. }
  repeat split; try assumption.
  - rewrite after_b_buf1. cbn. rewrite Hd. reflexivity.
  - unfold after_b. rewrite write_flush_session. cbn. rewrite Hd. reflexivity.
  - apply write_crossed_zero. exact Hd.
Qed.

Lemma rotation_leaves_writers_crossed_witness :
  snd (write (fst (write before_rotation (zeros (Z.to_nat 62000)))) chunk) = 0.
Proof.
  apply (rotation_leaves_writers_crossed before_rotation
           (zeros (Z.to_nat 62000))); vm_compute; reflexivity.
Defined.




(** Between the first rotation and the second, the same two writes both
    return 0, whatever the engine. *)
Lemma same_chunk_twice_crossed {E : ZlibEngine}
  (e : zlibBatchEstimator E) (p : list byte) :
  dst (w1 e) = Slot0 -> rotates e p = false ->
  snd (write e p) = 0 /\ snd (write (fst (write e p)) p) = 0.
Proof.
  intros Hd Hr. split; [apply write_crossed_zero, Hd|].
  apply write_crossed_zero.
  rewrite write_fst, Hr, after_mirror_w1, after_b_w1. exact Hd.
Qed.

Example crossed_run :
  let e := writes (newZlibBatchEstimator (E := raw_engine)) payloads in
  reachable e /\ dst (w1 e) = Slot0 /\ len (b1 e) = 72006 /\ b0 e = [] /\
  rotates e chunk = false /\
  snd (write e chunk) = 0 /\ snd (write (fst (write e chunk)) chunk) = 0.
Proof.
  cbn zeta. split; [apply reachable_writes, reach_new|].
  vm_compute. repeat split; reflexivity.
Qed.

End ZlibProps.

(** ** Facts about the worker loop *)

Module WorkerFacts.
Import Worker WorkerSpec.

Lemma FlzCompressLen_total ib :
  len ib < 2 ^ 32 -> exists n, Flz.FlzCompressLen ib = Ok n.
Proof.
  intros H. unfold Flz.FlzCompressLen.
  destruct (FlzFacts.scan_result_total ib H) as (a & n & ht & Es).
  rewrite Es. cbn. eauto.
Qed.

Lemma count_bytes_sum b : forall z nz,
  0 <= z -> 0 <= nz -> z + nz + len b < 2 ^ 32 ->
  fst (count_bytes b z nz) + snd (count_bytes b z nz) = z + nz + len b.
Proof.
  induction b as [|x b IH]; intros z nz Hz Hnz Hs.
  - cbn. unfold len. cbn. lia.
  - assert (Hl : len (x :: b) = len b + 1) by (unfold len; cbn; lia).
    pose proof (len_nonneg b) as Hb.
    cbn [count_bytes]. destruct (byte_val x =? 0).
    + rewrite u32_small by lia. rewrite IH by lia. lia.
    + rewrite u32_small by lia. rewrite IH by lia. lia.
Qed.

Section WithEngine.

Context `{E : ZlibEngine}.

Lemma trim_len cfg raw : len (trim cfg raw) <= len raw.
Proof.
  unfold trim. destruct (trimSignature cfg && (68 <=? len raw)); [|lia].
  unfold len. rewrite length_take. lia.
Qed.

Lemma advances_nil cfg st : advances cfg st st [].
Proof.
  split.
  - rewrite drop_nil. cbn. rewrite app_nil_r. reflexivity.
  - cbn. lia.
Qed.

Lemma advances_app cfg st st' st'' xs ys :
  advances cfg st st' xs -> advances cfg st' st'' ys ->
  advances cfg st st'' (xs ++ ys).
Proof.
  intros [H1 K1] [H2 K2]. split.
  - rewrite H2, H1, K1. rewrite skipn_app, map_app, app_assoc. reflexivity.
  - rewrite K2, K1, length_app. lia.
Qed.

Lemma process_tx_advances cfg number st tx :
  Forall small (tx_stream number tx) ->
  exists st', process_tx cfg number st tx = Ok st' /\
              advances cfg st st' (tx_stream number tx).
Proof.
  intros Hs. unfold process_tx, tx_stream in *.
  destruct (tx_is_deposit tx); [exists st; split; [reflexivity|apply advances_nil]|].
  destruct (tx_binary tx) as [raw|].
  2:{ eexists. split; [reflexivity|]. split; cbn.
      - rewrite drop_nil. cbn. rewrite app_nil_r. reflexivity.
      - unfold skip. cbn. lia. }
  apply Forall_inv in Hs. unfold small in Hs. cbn in Hs.
  pose proof (trim_len cfg raw) as Ht.
  destruct (bootstrapDone st) eqn:Hd; cbn [negb].
  - destruct (Zlib.write (zlibBestBatchEstimator st) (trim cfg raw)) as [est best].
    destruct (FlzCompressLen_total (trim cfg raw)) as [n En]; [lia|].
    rewrite En. cbn.
    pose proof (count_bytes_sum (trim cfg raw) 0 0) as Hc.
    destruct (count_bytes (trim cfg raw) 0 0) as [z nz]. cbn in Hc.
    eexists. split; [reflexivity|]. split; cbn.
    + unfold skip. rewrite Hd. cbn. rewrite map_app. cbn.
      unfold summary at 2, expected. cbn. rewrite Hc by lia. reflexivity.
    + unfold skip. cbn. rewrite Hd. reflexivity.
  - destruct (Zlib.write (zlibBestBatchEstimator st) (trim cfg raw)) as [est best].
    destruct (Z.leb_spec (bootstrapTxs cfg) (bootstrapCount st + 1)).
    + eexists. split; [reflexivity|]. split; cbn.
      * unfold skip. rewrite Hd.
        replace (Z.to_nat (Z.max 1 (bootstrapTxs cfg - bootstrapCount st)))
          with 1%nat by lia.
        cbn. rewrite app_nil_r. reflexivity.
      * unfold skip. cbn. rewrite Hd. lia.
    + eexists. split; [reflexivity|]. split; cbn.
      * unfold skip. rewrite Hd.
        destruct (Z.to_nat (Z.max 1 (bootstrapTxs cfg - bootstrapCount st)))
          eqn:Hk; [lia|].
        cbn. rewrite drop_nil, app_nil_r. reflexivity.
      * unfold skip. cbn. rewrite Hd. lia.
Qed.

Lemma process_txs_advances cfg number txs : forall st,
  Forall small (flat_map (tx_stream number) txs) ->
  exists st', process_txs cfg number st txs = Ok st' /\
              advances cfg st st' (flat_map (tx_stream number) txs).
Proof.
  induction txs as [|tx txs IH]; intros st Hs.
  - exists st. split; [reflexivity|apply advances_nil].
  - cbn in Hs. apply Forall_app in Hs as [Hs1 Hs2].
    destruct (process_tx_advances cfg number st tx Hs1) as (st1 & E1 & A1).
    destruct (IH st1 Hs2) as (st2 & E2 & A2).
    exists st2. cbn. rewrite E1. cbn. split; [exact E2|].
    eapply advances_app; eassumption.
Qed.

Lemma process_job_advances cfg job st :
  Forall small (job_stream job) ->
  exists st', process_job cfg st job = Ok st' /\
              advances cfg st st' (job_stream job).
Proof.
  unfold process_job, job_stream. destruct (job_block job) as [block|].
  - apply process_txs_advances.
  - intros _. eexists. split; [reflexivity|]. split; cbn.
    + rewrite drop_nil. cbn. rewrite app_nil_r. reflexivity.
    + unfold skip. cbn. lia.
Qed.

Lemma run_advances cfg jobs : forall st,
  Forall small (stream jobs) ->
  exists st', run cfg st jobs = Ok st' /\ advances cfg st st' (stream jobs).
Proof.
  induction jobs as [|job jobs IH]; intros st Hs.
  - exists st. split; [reflexivity|apply advances_nil].
  - unfold stream in Hs. cbn in Hs. apply Forall_app in Hs as [Hs1 Hs2].
    destruct (process_job_advances cfg job st Hs1) as (st1 & E1 & A1).
    destruct (IH st1 Hs2) as (st2 & E2 & A2).
    exists st2. cbn. rewrite E1. cbn. split; [exact E2|].
    unfold stream. cbn. eapply advances_app; eassumption.
Qed.

(** The worker sends one result per eligible transaction, in order,
    except for the first [max 1 bootstrapTxs] of them. *)
Lemma worker_results cfg jobs :
  Forall small (stream jobs) ->
  exists st,
    worker cfg jobs = Ok st /\
    map summary (sent st) =
      map (expected cfg)
        (drop (Z.to_nat (Z.max 1 (bootstrapTxs cfg))) (stream jobs)).
Proof.
  intros Hs. destruct (run_advances cfg jobs start Hs) as (st & Er & [A _]).
  exists st. split; [exact Er|]. rewrite A. cbn.
  unfold skip. cbn. rewrite Z.sub_0_r. reflexivity.
Qed.

End WithEngine.

End WorkerFacts.

(** ** Properties of the worker loop *)

Module WorkerProps.
Import Worker WorkerSpec WorkerFacts.

(** With a positive threshold the worker does what the specification
    says: exactly the first [bootstrapTxs] eligible transactions are
    consumed without a result. *)
Lemma bootstrap_positive {E : ZlibEngine} (cfg : config) jobs :
  1 <= bootstrapTxs cfg -> Forall small (stream jobs) ->
  exists st : state E,
    worker cfg jobs = Ok st /\
    map summary (sent st) =
      map (expected cfg) (drop (Z.to_nat (bootstrapTxs cfg)) (stream jobs)).
Proof.
  intros HN Hs. destruct (worker_results cfg jobs Hs) as (st & Ew & Hm).
  exists st. split; [exact Ew|]. rewrite Hm.
  replace (Z.max 1 (bootstrapTxs cfg)) with (bootstrapTxs cfg) by lia.
  reflexivity.
Qed.




(** The same run with the blocks arriving in ascending order: block 100
    is the one that loses a record. *)
Example bootstrap_zero_in_order :
  exists st : state raw_engine,
    worker (mk_config false 0)
      (five_blocks sample_tx sample_tx sample_tx sample_tx sample_tx
         sample_tx sample_tx sample_tx sample_tx sample_tx) = Ok st /\
    map BlockNumber (sent st)
      = [100; 101; 101; 102; 102; 103; 103; 104; 104] /\
    map (fun r => Zeroes r + NonZeroes r) (sent st)
      = [5; 5; 5; 5; 5; 5; 5; 5; 5].
Proof.
  eexists. split; [vm_compute; reflexivity|]. cbn. split; reflexivity.
Qed.



Example first_result_with_threshold_one :
  exists st : state raw_engine,
    worker (mk_config false 1)
      [synthetic 100 sample_tx sample_tx] = Ok st /\
    map BlockNumber (sent st) = [100] /\
    map Fastlz (sent st) = [6] /\
    map Zeroes (sent st) = [2] /\ map NonZeroes (sent st) = [3].
Proof.
  eexists. split; [vm_compute; reflexivity|]. cbn. repeat split.
Qed.

End WorkerProps.

(** ** Properties of the writer *)

Module WriterProps.
Import Writer.

Lemma byte_val_of x : byte_val (byte_of x) = x mod 256.
Proof.
  unfold byte_val, byte_of.
  assert (Hx : 0 <= x mod 256 < 256) by (apply Z.mod_pos_bound; lia).
  destruct (Byte.of_N (Z.to_N (x mod 256))) as [b|] eqn:Eb.
  - apply Byte.to_of_N in Eb. rewrite Eb. lia.
  - apply Byte.of_N_None_iff in Eb. lia.
Qed.

Lemma le32_decode_le32 v : le32_decode (le32 v) = u32 v.
Proof.
  unfold le32_decode, le32. rewrite !byte_val_of.
  rewrite !Z.shiftr_div_pow2 by lia. unfold u32.
  change (2 ^ 8) with 256. change (2 ^ 16) with 65536.
  change (2 ^ 24) with 16777216. change (2 ^ 32) with 4294967296.
  Z.to_euclidean_division_equations. lia.
Qed.

Lemma le32_length v : length (le32 v) = 4%nat.
Proof. reflexivity. Qed.

Lemma write_result_layout out r : write_result out r = out ++ record_bytes r.
Proof.
  unfold write_result, binary_Write, record_bytes.
  rewrite <- !app_assoc. reflexivity.
Qed.

(** C9: for every result consumed, the writer appends exactly one record
    of 20 bytes, made of five little-endian 32-bit fields in the order
    block number (its low 32 bits), zlib-best, fastlz, zeroes, non-zeroes;
    the output is the plain concatenation of the records, with nothing
    before, between or after them. *)
Theorem writer_appends_fixed_records (st : state) (results : list TxResult) :
  output (writer st results) = output st ++ flat_map record_bytes results /\
  length (output (writer st results))
    = (length (output st) + 20 * length results)%nat /\
  Forall (fun r =>
            length (record_bytes r) = 20%nat /\
            decode_record (record_bytes r)
              = [u32 (BlockNumber r); u32 (Best r); u32 (Fastlz r);
                 u32 (Zeroes r); u32 (NonZeroes r)]) results.
Proof.
  assert (Hout : forall rs s,
             output (writer s rs) = output s ++ flat_map record_bytes rs).
  { induction rs as [|r rs IH]; intros s.
    - cbn. rewrite app_nil_r. reflexivity.
    - cbn [writer fold_left]. fold (writer (step s r) rs). rewrite IH.
      cbn [step output flat_map]. rewrite write_result_layout.
      rewrite <- app_assoc. reflexivity. }
  assert (Hlen : forall rs, length (flat_map record_bytes rs)
                            = (20 * length rs)%nat).
  { induction rs as [|r rs IH]; [reflexivity|].
    cbn [flat_map]. rewrite length_app, IH. cbn [length]. unfold record_bytes.
    rewrite !length_app, !le32_length. lia. }
  split; [apply Hout|]. split.
  - rewrite Hout, length_app, Hlen. reflexivity.
  - apply Forall_forall. intros r _. split; [reflexivity|].
    unfold decode_record, record_bytes.
    cbn [le32 app take drop firstn skipn].
    repeat match goal with
           | |- context [le32_decode [byte_of ?v; ?a; ?b; ?c]] =>
               change (le32_decode [byte_of v; a; b; c])
                 with (le32_decode (le32 v));
               rewrite (le32_decode_le32 v)
           end.
    rewrite (u32_small (u32 (BlockNumber r))) by apply u32_range.
    reflexivity.
Qed.

Example one_record :
  output (writer start [mk_result 258 3 6 2 3])
  = [x02; x01; x00; x00; x03; x00; x00; x00; x06; x00; x00; x00;
     x02; x00; x00; x00; x03; x00; x00; x00].
Proof. reflexivity. Qed.

End WriterProps.

(** ** Properties of the block source *)

Module SourceProps.
Import Source.

(** C10: with the local store as block source, a block number that has
    no canonical hash makes BlockByNumber return a nil block and a nil
    error. The fetcher takes that as a success at its first call: it does
    not sleep, logs nothing and sends a job with a nil block. The worker
    logs that job and goes on: it sends no result and leaves its
    estimator and bootstrap counter as they were. *)
Theorem missing_local_block_is_silent {E : ZlibEngine}
  (db : Database) (blockNum : Z) (cfg : Worker.config)
  (st : Worker.state E) :
  0 <= blockNum < 2 ^ 63 ->
  ReadCanonicalHash db blockNum = 0 ->
  BlockByNumber db blockNum = (db, (None, None)) /\
  fetch db blockNum = mk_fetched db 1%nat [] [] (Some (mk_job None)) /\
  Worker.process_job cfg st (mk_job None)
    = Ok (Worker.mk_state (Worker.zlibBestBatchEstimator st) (Worker.bootstrapCount st)
            (Worker.bootstrapDone st) (Worker.sent st)
            (Worker.logged st ++ [LogNilBlock])).
Proof.
  intros Hn Hh.
  assert (Hi : int64 blockNum = blockNum).
  { unfold int64. rewrite Z.mod_small by lia. lia. }
  assert (Hu : uint64 blockNum = blockNum).
  { unfold uint64. apply Z.mod_small. lia. }
  assert (Hb : local_BlockByNumber db blockNum = (None, None)).
  { unfold local_BlockByNumber. rewrite Hi, Hu, Hh.
    destruct (Z.ltb_spec blockNum 0); [lia|]. reflexivity. }
  split; [cbn; rewrite Hb; reflexivity|]. split; [|reflexivity].
  unfold fetch. change (Z.to_nat maxRetries) with 8%nat.
  cbn [retry BlockByNumber LocalClient]. rewrite Hi, Hb. reflexivity.
Qed.

Lemma missing_local_block_is_silent_witness :
  fetch empty_db 5 = mk_fetched empty_db 1%nat [] [] (Some (mk_job None)).
Proof.
  apply (missing_local_block_is_silent (E := raw_engine) empty_db 5
           (Worker.mk_config false 1000) Worker.start).
  - lia.
  - reflexivity.
Defined.

Example failing_source_is_retried_then_dropped :
  fetch tt 5
  = mk_fetched tt 8%nat [100; 200; 400; 800; 1600; 3200; 6400]
      [LogFetchFailed 5] None.
Proof. reflexivity. Qed.

End SourceProps.

(** ** Properties of the FastLZ length estimator *)

Module FlzProps.
Import Flz FlzSpec FlzFacts.

(** C5: for an input of 0 to 12 bytes the scan loop is not entered (the
    anchor stays at 0 and the table is returned untouched, so no position
    was hashed or probed) and the result is the all-literal cost
    length + ceil(length / 32). *)
Theorem short_input_is_all_literals (ib : list byte) :
  len ib <= 12 ->
  scan_result ib = Ok (0, 0, empty_table) /\
  FlzCompressLen ib = Ok (len ib + (len ib + 31) / 32).
Proof.
  intros Hs. pose proof (len_nonneg ib) as H0.
  assert (HL : ipLimit ib = 0).
  { unfold ipLimit. destruct (Z.ltb_spec (len ib) 13); [reflexivity|lia]. }
  assert (Hscan : scan_result ib = Ok (0, 0, empty_table)).
  { unfold scan_result. destruct (length ib); cbn [scan]; rewrite HL;
      reflexivity. }
  split; [exact Hscan|].
  unfold FlzCompressLen. rewrite Hscan. cbn. f_equal.
  rewrite (u32_small (len ib)) by lia. rewrite Z.sub_0_r.
  rewrite (u32_small (len ib)) by lia.
  unfold literals.
  rewrite (Z.div_small (len ib) 32), (Z.mod_small (len ib) 32) by lia.
  change (u32 (0 + u32 (33 * 0))) with 0.
  destruct (Z.eqb_spec (len ib) 0) as [Hz|Hz].
  - rewrite Hz. reflexivity.
  - rewrite (u32_small (len ib + 1)) by lia.
    rewrite u32_small by lia.
    assert (Hc : (len ib + 31) / 32 = 1).
    { symmetry. apply (Z.div_unique _ _ 1 (len ib - 1)); lia. }
    lia.
Qed.

Lemma short_input_is_all_literals_witness :
  FlzCompressLen [x01; x02; x03; x04; x05] = Ok 6.
Proof.
  apply (short_input_is_all_literals [x01; x02; x03; x04; x05]).
  unfold len. simpl. lia.
Defined.

(** C6: on 1000 zero bytes the estimator returns 21, far below 1000, and
    that is the cost worked out by hand: the scan stops with its anchor
    at 995 after charging two literals (2 + 1 bytes) and a 991-byte match
    (three full 262-byte units at 3 bytes each and a 3-byte remainder),
    and the five bytes left are charged as literals (5 + 1 bytes). *)
Theorem thousand_zeros_cost :
  FlzCompressLen (zeros (Z.to_nat 1000)) = Ok 21 /\
  21 < 1000 /\
  reference_cost = 21 /\
  reference_cost = (2 + 1) + (3 * 3 + 3) + (5 + 1) /\
  exists ht, scan_result (zeros (Z.to_nat 1000))
             = Ok (995, match_ 991 (literals 2 0), ht).
Proof.
  split; [vm_compute; reflexivity|]. split; [lia|].
  split; [vm_compute; reflexivity|]. split; [vm_compute; reflexivity|].
  eexists. vm_compute. reflexivity.
Qed.

(** C7: no index used by the estimator is out of range. On every input
    the run never panics, a panic being what an out-of-range read of the
    input or of the table gives; on every input whose length fits the
    [uint32] conversion it returns a value; and from 13 bytes on the scan
    limit is length - 13. *)
Theorem reads_stay_in_bounds (ib : list byte) :
  FlzCompressLen ib <> Panic /\
  (len ib < 2 ^ 32 -> exists n, FlzCompressLen ib = Ok n) /\
  (13 <= len ib < 2 ^ 32 -> ipLimit ib = len ib - 13).
Proof.
  split; [|split].
  - unfold FlzCompressLen. pose proof (scan_result_no_panic ib) as H.
    destruct (scan_result ib) as [[[a n] ht]| |]; cbn in *;
      [discriminate|contradiction|discriminate].
  - intros Hhi. unfold FlzCompressLen.
    destruct (scan_result_total ib Hhi) as (a & n & ht & Es).
    rewrite Es. cbn. eauto.
  - intros [Hlo Hhi]. apply ipLimit_eq; assumption.
Qed.

Lemma reads_stay_in_bounds_witness :
  exists n, FlzCompressLen (zeros 40) = Ok n.
Proof.
  destruct (reads_stay_in_bounds (zeros 40)) as (_ & H & _).
  apply H. vm_compute. reflexivity.
Defined.

Example all_literal_costs :
  map (fun k => FlzCompressLen (zeros k)) [0; 1; 5; 12; 13]%nat
  = [Ok 0; Ok 2; Ok 6; Ok 13; Ok 14].
Proof. vm_compute. reflexivity. Qed.

End FlzProps.

(** ** Further properties of the block source *)

Module SourceMore.
Import Source SourceSpec Coordinator.

Lemma local_BlockByHash_no_error (db : Database) hash :
  snd (local_BlockByHash db hash) = None.
Proof.
  unfold local_BlockByHash. destruct (ReadHeaderNumber db hash); reflexivity.
Qed.

Lemma local_BlockByNumber_no_error (db : Database) number :
  snd (local_BlockByNumber db number) = None.
Proof.
  unfold local_BlockByNumber. destruct (int64 number <? 0).
  - apply local_BlockByHash_no_error.
  - destruct (ReadCanonicalHash db (uint64 number) =? 0); reflexivity.
Qed.

(** X1: the local store never answers with an error, so with it as block
    source a fetcher makes exactly one call per block number, never
    sleeps, never logs a drop, and always sends a job, whose block is
    whatever the store returned (nil included). *)
Theorem local_fetch_is_single_call (db : Database) (blockNum : Z) :
  snd (local_BlockByNumber db (int64 blockNum)) = None /\
  fetch db blockNum
  = mk_fetched db 1%nat [] []
      (Some (mk_job (fst (local_BlockByNumber db (int64 blockNum))))).
Proof.
  pose proof (local_BlockByNumber_no_error db (int64 blockNum)) as Hn.
  split; [exact Hn|].
  unfold fetch. change (Z.to_nat maxRetries) with 8%nat.
  cbn [retry BlockByNumber LocalClient].
  destruct (local_BlockByNumber db (int64 blockNum)) as [block err].
  cbn in Hn. subst err. reflexivity.
Qed.

Section WithClient.

Context {C : Type} `{Client C}.






End WithClient.



Lemma descend_spec fuel : forall blockNum endBlock,
  0 <= endBlock -> blockNum < 2 ^ 64 ->
  (Z.to_nat (blockNum - endBlock) <= fuel)%nat ->
  descend fuel blockNum endBlock
  = Ok (map (fun i => blockNum - Z.of_nat i)
          (seq 0 (Z.to_nat (blockNum - endBlock)))).
Proof.
  induction fuel as [|fuel IH]; intros blockNum endBlock He Hb Hf.
  - cbn. destruct (Z.ltb_spec endBlock blockNum); [lia|].
    replace (Z.to_nat (blockNum - endBlock)) with O by lia. reflexivity.
  - cbn [descend]. destruct (Z.ltb_spec endBlock blockNum) as [Hlt|Hge].
    + assert (Hu : uint64 (blockNum - 1) = blockNum - 1).
      { unfold uint64. apply Z.mod_small. lia. }
      rewrite Hu, IH by lia. cbn.
      replace (Z.to_nat (blockNum - endBlock))
        with (S (Z.to_nat (blockNum - 1 - endBlock))) by lia.
      cbn [seq map]. rewrite Z.sub_0_r. f_equal. f_equal.
      rewrite <- seq_shift, map_map. apply map_ext. intros i. lia.
    + replace (Z.to_nat (blockNum - endBlock)) with O by lia. reflexivity.
Qed.

(** X4: the coordinator sends the block numbers from the starting one
    down to the one just above [endBlock], each once, in descending order
    (nothing when the start is not above [endBlock]); the [uint64]
    decrement never wraps. *)
Theorem blockNumbers_descending (startBlockNum endBlock : Z) :
  0 <= endBlock -> 0 <= startBlockNum < 2 ^ 64 ->
  exists numbers,
    blockNumbers startBlockNum endBlock = Ok numbers /\
    numbers = map (fun i => startBlockNum - Z.of_nat i)
                (seq 0 (Z.to_nat (startBlockNum - endBlock))) /\
    length numbers = Z.to_nat (startBlockNum - endBlock) /\
    Forall (fun x => endBlock < x <= startBlockNum) numbers.
Proof.
  intros He Hs. eexists. split.
  - unfold blockNumbers. apply descend_spec; lia.
  - split; [reflexivity|]. split.
    + rewrite length_map, length_seq. reflexivity.
    + apply Forall_forall. intros x Hx. apply list_elem_of_In in Hx.
      apply in_map_iff in Hx.
      destruct Hx as (i & <- & Hi). apply in_seq in Hi. lia.
Qed.

Lemma blockNumbers_descending_witness :
  blockNumbers 104 99 = Ok [104; 103; 102; 101; 100].
Proof.
  destruct (blockNumbers_descending 104 99) as (numbers & Hr & -> & _);
    [lia|lia|].
  exact Hr.
Defined.

End SourceMore.

(** ** Further properties of the writer *)

Module WriterMore.
Import Writer WriterSpec.

Lemma field_decoded v : le32_decode (le32 v) = u32 v.
Proof.
  unfold le32_decode, le32.
  assert (Hb : forall x, byte_val (byte_of x) = x mod 256).
  { intros x. unfold byte_val, byte_of.
    assert (Hx : 0 <= x mod 256 < 256) by (apply Z.mod_pos_bound; lia).
    destruct (Byte.of_N (Z.to_N (x mod 256))) as [b|] eqn:Eb.
    - apply Byte.to_of_N in Eb. rewrite Eb. lia.
    - apply Byte.of_N_None_iff in Eb. lia. }
  rewrite !Hb, !Z.shiftr_div_pow2 by lia. unfold u32.
  change (2 ^ 8) with 256. change (2 ^ 16) with 65536.
  change (2 ^ 24) with 16777216. change (2 ^ 32) with 4294967296.
  Z.to_euclidean_division_equations. lia.
Qed.

Lemma record_decoded r : decode_record (record_bytes r) = fields r.
Proof.
  unfold decode_record, record_bytes, fields.
  cbn [le32 app take drop firstn skipn].
  repeat match goal with
         | |- context [le32_decode [byte_of ?v; ?a; ?b; ?c]] =>
             change (le32_decode [byte_of v; a; b; c])
               with (le32_decode (le32 v));
             rewrite (field_decoded v)
         end.
  rewrite (u32_small (u32 (BlockNumber r))) by apply u32_range.
  reflexivity.
Qed.

Lemma record_length r : length (record_bytes r) = 20%nat.
Proof. reflexivity. Qed.

Lemma writer_output rs : forall st,
  output (writer st rs) = output st ++ flat_map record_bytes rs.
Proof.
  induction rs as [|r rs IH]; intros st.
  - cbn. rewrite app_nil_r. reflexivity.
  - cbn [writer fold_left]. fold (writer (step st r) rs). rewrite IH.
    cbn [step output flat_map]. unfold write_result, binary_Write.
    unfold record_bytes. rewrite <- !app_assoc. reflexivity.
Qed.

Lemma records_length rs :
  length (flat_map record_bytes rs) = (length rs * 20)%nat.
Proof.
  induction rs as [|r rs IH]; [reflexivity|].
  cbn [flat_map]. rewrite length_app, IH, record_length. cbn [length]. lia.
Qed.

Lemma decode_records_fresh rs :
  decode_records (length rs) (flat_map record_bytes rs) = map fields rs.
Proof.
  induction rs as [|r rs IH]; [reflexivity|].
  cbn [length flat_map decode_records map].
  rewrite take_app_length', drop_app_length' by reflexivity.
  rewrite record_decoded, IH. reflexivity.
Qed.

Lemma decode_records_app k : forall old rest n,
  length old = (k * 20)%nat ->
  decode_records (k + n) (old ++ rest)
  = decode_records k old ++ decode_records n rest.
Proof.
  induction k as [|k IH]; intros old rest n Hl.
  - destruct old; [reflexivity|discriminate].
  - cbn [Nat.add decode_records app].
    rewrite take_app_le, drop_app_le by lia.
    rewrite IH; [reflexivity|]. rewrite length_drop. lia.
Qed.

(** X5: reading the file back in 20-byte records returns what was there
    before followed by the fields of the results written, in order and
    reduced to 32 bits: records are appended, never rewritten, and their
    boundaries are positions only. *)
Theorem output_round_trip (st : state) (k : nat) (results : list TxResult) :
  length (output st) = (k * 20)%nat ->
  decode_output (output (writer st results))
  = decode_output (output st) ++ map fields results.
Proof.
  intros Hl. unfold decode_output.
  rewrite writer_output, length_app, records_length, Hl.
  rewrite <- Nat.mul_add_distr_r, !Nat.div_mul by lia.
  rewrite decode_records_app by exact Hl.
  rewrite decode_records_fresh. reflexivity.
Qed.

Lemma output_round_trip_witness :
  decode_output
    (output (writer start [mk_result 258 3 6 2 3; mk_result 259 0 21 1000 0]))
  = [[258; 3; 6; 2; 3]; [259; 0; 21; 1000; 0]].
Proof.
  rewrite (output_round_trip start 0); reflexivity.
Defined.

Lemma last_after {A} (x d : A) l : List.last (x :: l) d = List.last l x.
Proof.
  revert x d. induction l as [|y l IH]; intros x d; [reflexivity|].
  change (List.last (x :: y :: l) d) with (List.last (y :: l) d).
  rewrite (IH y d), (IH y x). reflexivity.
Qed.

(** X6: the writer's progress counters: the count grows by one per
    result, and the last block is the block number of the latest result
    consumed, whatever came before (unchanged when nothing is consumed). *)
Theorem writer_counters (st : state) (results : list TxResult) :
  resultCount (writer st results)
  = resultCount st + Z.of_nat (length results) /\
  lastBlock (writer st results)
  = List.last (map BlockNumber results) (lastBlock st).
Proof.
  revert st. induction results as [|r rs IH]; intros st.
  - cbn. split; [lia|reflexivity].
  - cbn [writer fold_left]. fold (writer (step st r) rs).
    destruct (IH (step st r)) as [Hc Hb]. rewrite Hc, Hb. split.
    + cbn [step resultCount length]. lia.
    + cbn [map]. rewrite last_after. f_equal. cbn [step lastBlock].
      destruct (Z.eqb_spec (BlockNumber r) (lastBlock st)); congruence.
Qed.

End WriterMore.

(** ** Further properties of the worker loop *)

Module WorkerMore.
Import Worker WorkerSpec WorkerTrace ZlibSpec ZlibTrace.

Lemma byte_val_zero x : byte_val x = 0 <-> x = x00.
Proof.
  split; [|intros ->; reflexivity].
  unfold byte_val. intros Hx.
  assert (Hn : Byte.to_N x = 0%N) by lia.
  pose proof (Byte.of_to_N x) as Hof. rewrite Hn in Hof.
  cbn in Hof. congruence.
Qed.

Lemma count_bytes_from b : forall z nz,
  0 <= z -> 0 <= nz -> z + nz + len b < 2 ^ 32 ->
  count_bytes b z nz
  = (z + Z.of_nat (count_occ Byte.byte_eq_dec b x00),
     nz + (len b - Z.of_nat (count_occ Byte.byte_eq_dec b x00))).
Proof.
  induction b as [|x b IH]; intros z nz Hz Hnz Hs.
  - cbn. unfold len. cbn. f_equal; lia.
  - assert (Hl : len (x :: b) = len b + 1) by (unfold len; cbn; lia).
    pose proof (len_nonneg b) as Hb.
    pose proof (count_occ_bound Byte.byte_eq_dec x00 b) as Hc.
    cbn [count_bytes count_occ].
    destruct (Z.eqb_spec (byte_val x) 0) as [Hx|Hx].
    + apply byte_val_zero in Hx. subst x.
      destruct (Byte.byte_eq_dec x00 x00) as [_|Hne]; [|congruence].
      rewrite u32_small by lia. rewrite IH by lia. f_equal; lia.
    + destruct (Byte.byte_eq_dec x x00) as [He|_].
      { subst x. exfalso. apply Hx. reflexivity. }
      rewrite u32_small by lia. rewrite IH by lia. f_equal; lia.
Qed.

(** X11: the counting loop returns the number of zero bytes of the
    payload and the number of its other bytes (for a payload shorter than
    2^32 bytes, beyond which the [uint32] counters would wrap). *)
Theorem count_bytes_counts (b : list byte) :
  len b < 2 ^ 32 ->
  count_bytes b 0 0
  = (Z.of_nat (count_occ Byte.byte_eq_dec b x00),
     len b - Z.of_nat (count_occ Byte.byte_eq_dec b x00)).
Proof.
  intros Hs. pose proof (len_nonneg b).
  rewrite count_bytes_from by lia. reflexivity.
Qed.

Lemma count_bytes_counts_witness : count_bytes sample_tx 0 0 = (2, 3).
Proof.
  rewrite (count_bytes_counts sample_tx); [reflexivity|].
  vm_compute. reflexivity.
Defined.

Section WithEngine.

Context `{E : ZlibEngine}.

Lemma same_core_sym (x y : res (state E)) : same_core x y -> same_core y x.
Proof. destruct x, y; cbn; auto. Qed.

Lemma same_core_trans (x y z : res (state E)) :
  same_core x y -> same_core y z -> same_core x z.
Proof. destruct x, y, z; cbn; try tauto. congruence. Qed.

Lemma same_core_bind (x y : res (state E)) (f g : state E -> res (state E)) :
  same_core x y ->
  (forall s t, core s = core t -> same_core (f s) (g t)) ->
  same_core (x ≫= f) (y ≫= g).
Proof. destruct x, y; cbn; try tauto. intros Hc Hf. apply Hf, Hc. Qed.

Lemma process_tx_core cfg number (st st' : state E) tx :
  core st = core st' ->
  same_core (process_tx cfg number st tx) (process_tx cfg number st' tx).
Proof.
  destruct st as [e c d s l], st' as [e' c' d' s' l'].
  unfold core. cbn. intros [= -> -> -> ->].
  unfold process_tx. cbn.
  destruct (tx_is_deposit tx); [reflexivity|].
  destruct (tx_binary tx) as [raw|]; [|reflexivity].
  destruct d'; cbn.
  - destruct (Zlib.write e' (trim cfg raw)) as [est best].
    destruct (Flz.FlzCompressLen (trim cfg raw)); cbn; try exact I.
    destruct (count_bytes (trim cfg raw) 0 0). reflexivity.
  - destruct (Zlib.write e' (trim cfg raw)) as [est best].
    destruct (bootstrapTxs cfg <=? c' + 1); reflexivity.
Qed.

Lemma feed_app cfg xs : forall (st : state E) ys,
  feed cfg st (xs ++ ys) = feed cfg st xs ≫= (fun st' => feed cfg st' ys).
Proof.
  induction xs as [|x xs IH]; intros st ys; [reflexivity|].
  cbn [app feed].
  destruct (process_tx cfg (fst x) st (mk_tx false (Some (snd x))));
    cbn; [apply IH|reflexivity|reflexivity].
Qed.

Lemma feed_core cfg xs : forall st st' : state E,
  core st = core st' -> same_core (feed cfg st xs) (feed cfg st' xs).
Proof.
  induction xs as [|x xs IH]; intros st st' Hc; [exact Hc|].
  cbn [feed]. apply same_core_bind; [apply process_tx_core, Hc|].
  intros s t Hst. apply IH, Hst.
Qed.

Lemma process_tx_feed cfg number (st st' : state E) tx :
  core st = core st' ->
  same_core (process_tx cfg number st tx)
            (feed cfg st' (tx_stream number tx)).
Proof.
  intros Hc. destruct tx as [dep bin]. unfold tx_stream. cbn.
  destruct dep; [exact Hc|]. destruct bin as [raw|].
  - cbn [feed fst snd].
    pose proof (process_tx_core cfg number st st'
                  (mk_tx false (Some raw)) Hc) as Hp.
    destruct (process_tx cfg number st' (mk_tx false (Some raw)));
      exact Hp.
  - unfold process_tx. cbn. exact Hc.
Qed.

Lemma process_txs_feed cfg number txs : forall st st' : state E,
  core st = core st' ->
  same_core (process_txs cfg number st txs)
            (feed cfg st' (flat_map (tx_stream number) txs)).
Proof.
  induction txs as [|tx txs IH]; intros st st' Hc; [exact Hc|].
  cbn [process_txs flat_map]. rewrite feed_app.
  apply same_core_bind; [apply process_tx_feed, Hc|].
  intros s t Hst. apply IH, Hst.
Qed.

Lemma process_job_feed cfg job (st st' : state E) :
  core st = core st' ->
  same_core (process_job cfg st job) (feed cfg st' (job_stream job)).
Proof.
  intros Hc. unfold process_job, job_stream.
  destruct (job_block job) as [block|].
  - apply process_txs_feed, Hc.
  - exact Hc.
Qed.

Lemma run_feed cfg jobs : forall st st' : state E,
  core st = core st' ->
  same_core (run cfg st jobs) (feed cfg st' (stream jobs)).
Proof.
  induction jobs as [|job jobs IH]; intros st st' Hc; [exact Hc|].
  cbn [run]. unfold stream. cbn [flat_map]. rewrite feed_app.
  apply same_core_bind; [apply process_job_feed, Hc|].
  intros s t Hst. apply IH, Hst.
Qed.


(** X7: what the worker sends, and the state of its estimator and
    bootstrap, depend on the job list only through its eligible stream:
    nil blocks, deposits, transactions that fail to serialize and the
    grouping of transactions into blocks change nothing but the log. *)
Theorem results_depend_on_stream_only cfg (jobs jobs' : list BlockJob) :
  stream jobs = stream jobs' ->
  same_core (worker (E := E) cfg jobs) (worker cfg jobs').
Proof.
  intros Hs. unfold worker.
  eapply same_core_trans; [apply (run_feed cfg jobs start start eq_refl)|].
  rewrite Hs. apply same_core_sym, run_feed. reflexivity.
Qed.







End WithEngine.

Lemma results_depend_on_stream_only_witness :
  same_core (worker (E := raw_engine) (mk_config false 1) plain_jobs)
            (worker (mk_config false 1) noisy_jobs).
Proof.
  apply (results_depend_on_stream_only (E := raw_engine)). reflexivity.
Defined.




End WorkerMore.

(** ** Further properties of the zlib batch estimator *)

Module ZlibMore.
Import Zlib ZlibSpec ZlibTrace ZlibFacts.

Section WithEngine.

Context `{E : ZlibEngine}.

(** One write, before the rotation test, in each arrangement. *)
Lemma step_direct (e : zlibBatchEstimator E) p :
  direct e ->
  let outB := snd (session (zst (w1 e)) p) in
  let over := 64 * 1024 <? len (b1 e ++ outB) in
  after_mirror e p
  = mk_estimator
      (if over then b0 e ++ snd (session (zst (w0 e)) p) else b0 e)
      (b1 e ++ outB)
      (mk_zwriter Slot0
         (if over then fst (session (zst (w0 e)) p) else zst (w0 e)))
      (mk_zwriter Slot1 (fst (session (zst (w1 e)) p))).
Proof.
  destruct e as [c0 c1 [d0 s0] [d1 s1]]. unfold direct. cbn.
  intros [-> ->]. unfold after_mirror, after_b.
  rewrite write_flush_session. cbn.
  destruct (64 * 1024 <? len (c1 ++ snd (session s1 p))); [|reflexivity].
  rewrite write_flush_session. reflexivity.
Qed.

Lemma step_crossed (e : zlibBatchEstimator E) p :
  crossed e ->
  let over := 64 * 1024 <? len (b1 e) in
  after_mirror e p
  = mk_estimator
      (b0 e ++ snd (session (zst (w1 e)) p))
      (if over then b1 e ++ snd (session (zst (w0 e)) p) else b1 e)
      (mk_zwriter Slot1
         (if over then fst (session (zst (w0 e)) p) else zst (w0 e)))
      (mk_zwriter Slot0 (fst (session (zst (w1 e)) p))).
Proof.
  destruct e as [c0 c1 [d0 s0] [d1 s1]]. unfold crossed. cbn.
  intros [-> ->]. unfold after_mirror, after_b.
  rewrite write_flush_session. cbn.
  destruct (64 * 1024 <? len c1); [|reflexivity].
  rewrite write_flush_session. reflexivity.
Qed.

Lemma step_merged (e : zlibBatchEstimator E) p :
  merged e ->
  let outB := snd (session (zst (w1 e)) p) in
  let over := 64 * 1024 <? len (b1 e ++ outB) in
  after_mirror e p
  = mk_estimator []
      (if over then (b1 e ++ outB) ++ snd (session (zst (w0 e)) p)
       else b1 e ++ outB)
      (mk_zwriter Slot1
         (if over then fst (session (zst (w0 e)) p) else zst (w0 e)))
      (mk_zwriter Slot1 (fst (session (zst (w1 e)) p))).
Proof.
  destruct e as [c0 c1 [d0 s0] [d1 s1]]. unfold merged. cbn.
  intros (-> & -> & ->). unfold after_mirror, after_b.
  rewrite write_flush_session. cbn.
  destruct (64 * 1024 <? len (c1 ++ snd (session s1 p))); [|reflexivity].
  rewrite write_flush_session. reflexivity.
Qed.

Lemma arrangement_run ps : forall e : zlibBatchEstimator E,
  (direct e ->
   match rotations e ps with
   | O => direct (writes e ps)
   | S O => crossed (writes e ps)
   | S (S _) => merged (writes e ps)
   end) /\
  (crossed e ->
   match rotations e ps with
   | O => crossed (writes e ps)
   | S _ => merged (writes e ps)
   end) /\
  (merged e -> merged (writes e ps)).
Proof.
  induction ps as [|p ps IH]; intros e; [cbn; tauto|].
  destruct (ZlibProps.write_arrangement e p) as (Hd & Hc & Hm).
  destruct (IH (fst (write e p))) as (Id & Ic & Im).
  cbn [rotations writes fold_left].
  fold (writes (fst (write e p)) ps).
  destruct (rotates e p); cbn [Nat.add].
  - split; [|split].
    + intros H. specialize (Ic (Hd H)).
      destruct (rotations (fst (write e p)) ps); exact Ic.
    + intros H. apply Im, Hc, H.
    + intros H. apply Im, Hm, H.
  - split; [|split].
    + intros H. apply Id, Hd, H.
    + intros H. apply Ic, Hc, H.
    + intros H. apply Im, Hm, H.
Qed.

(** X12: which buffer each writer fills is fixed by the number of
    rotations so far: after none, w[0] fills b[0] and w[1] fills b[1];
    after exactly one, they are crossed (w[0] fills b[1], w[1] fills
    b[0]); after two or more, both fill b[1] and b[0] is empty. *)
Theorem arrangement_by_rotations (ps : list (list byte)) :
  let e := writes (newZlibBatchEstimator (E := E)) ps in
  match rotations (newZlibBatchEstimator (E := E)) ps with
  | O => direct e
  | S O => crossed e
  | S (S _) => merged e
  end.
Proof.
  cbn zeta. apply arrangement_run. split; reflexivity.
Qed.

Lemma quiet_cons (e : zlibBatchEstimator E) p ps :
  quiet e (p :: ps) = true ->
  rotates e p = false /\ fst (write e p) = after_mirror e p /\
  quiet (after_mirror e p) ps = true.
Proof.
  cbn [quiet]. intros Hq. apply andb_true_iff in Hq as [Hr Hq].
  apply negb_true_iff in Hr. rewrite write_fst, Hr in Hq.
  split; [exact Hr|]. split; [rewrite write_fst, Hr; reflexivity|exact Hq].
Qed.

Lemma direct_run ps : forall e : zlibBatchEstimator E,
  direct e -> quiet e ps = true ->
  direct (writes e ps) /\
  b1 (writes e ps) = b1 e ++ concat (emitted (zst (w1 e)) ps) /\
  zst (w1 (writes e ps)) = session_end (zst (w1 e)) ps /\
  deltas e ps = map (fun out => clamp (len out)) (emitted (zst (w1 e)) ps).
Proof.
  induction ps as [|p ps IH]; intros e Hd Hq.
  - cbn. rewrite app_nil_r. auto.
  - destruct (quiet_cons e p ps Hq) as (Hr & Hw & Hq').
    pose proof (step_direct e p Hd) as Hs. cbn zeta in Hs.
    assert (Hd' : direct (after_mirror e p)).
    { rewrite Hs. split; reflexivity. }
    destruct (IH (after_mirror e p) Hd' Hq') as (I1 & I2 & I3 & I4).
    cbn [writes fold_left emitted session_end deltas concat map].
    fold (writes (fst (write e p)) ps). rewrite Hw.
    split; [exact I1|]. rewrite I2, I3, I4.
    rewrite (write_direct e p (proj2 Hd)). rewrite Hs. cbn.
    rewrite <- app_assoc. unfold clamp. repeat split.
Qed.

(** X13: up to the first rotation b[1] is the output of one continuous
    compression session over every payload written, in order, and each
    call returns what that session emitted for its payload less the two
    flush bytes (0 when it emitted less). *)
Theorem direct_phase_is_one_stream (ps : list (list byte)) :
  quiet (newZlibBatchEstimator (E := E)) ps = true ->
  b1 (writes newZlibBatchEstimator ps) = concat (emitted z_fresh ps) /\
  zst (w1 (writes newZlibBatchEstimator ps)) = session_end z_fresh ps /\
  deltas newZlibBatchEstimator ps
  = map (fun out => clamp (len out)) (emitted z_fresh ps).
Proof.
  intros Hq.
  destruct (direct_run ps newZlibBatchEstimator) as (_ & H1 & H2 & H3);
    [split; reflexivity|exact Hq|].
  auto.
Qed.

Lemma mirror_all ps : forall e : zlibBatchEstimator E,
  direct e -> 64 * 1024 < len (b1 e) -> quiet e ps = true ->
  b0 (writes e ps) = b0 e ++ concat (emitted (zst (w0 e)) ps).
Proof.
  induction ps as [|p ps IH]; intros e Hd Hover Hq.
  - cbn. rewrite app_nil_r. reflexivity.
  - destruct (quiet_cons e p ps Hq) as (Hr & Hw & Hq').
    pose proof (step_direct e p Hd) as Hs. cbn zeta in Hs.
    pose proof (len_nonneg (snd (session (zst (w1 e)) p))) as Hn.
    destruct (Z.ltb_spec (64 * 1024) (len (b1 e ++ snd (session (zst (w1 e)) p))))
      as [_|Hle]; [|rewrite len_app in Hle; lia].
    cbn [writes fold_left emitted concat].
    fold (writes (fst (write e p)) ps). rewrite Hw.
    rewrite IH; [|rewrite Hs; split; reflexivity| |exact Hq'].
    + rewrite Hs. cbn. rewrite <- app_assoc. reflexivity.
    + rewrite Hs. cbn. rewrite len_app. lia.
Qed.

Lemma mirror_run ps : forall e : zlibBatchEstimator E,
  direct e -> quiet e ps = true ->
  b0 (writes e ps) = b0 e ++ concat (emitted (zst (w0 e)) (mirrored e ps)).
Proof.
  induction ps as [|p ps IH]; intros e Hd Hq.
  - cbn. rewrite app_nil_r. reflexivity.
  - destruct (quiet_cons e p ps Hq) as (Hr & Hw & Hq').
    pose proof (step_direct e p Hd) as Hs. cbn zeta in Hs.
    assert (Hb : b1 (after_b e p) = b1 e ++ snd (session (zst (w1 e)) p)).
    { rewrite after_b_buf1, (proj2 Hd). reflexivity. }
    cbn [mirrored writes fold_left]. fold (writes (fst (write e p)) ps).
    rewrite Hb, Hw.
    destruct (64 * 1024 <? len (b1 e ++ snd (session (zst (w1 e)) p)))
      eqn:Hover; rewrite ?Hover in Hs.
    + apply Z.ltb_lt in Hover.
      rewrite mirror_all; [|rewrite Hs; split; reflexivity| |exact Hq'].
      * rewrite Hs. cbn. rewrite <- app_assoc. reflexivity.
      * rewrite Hs. cbn. exact Hover.
    + rewrite IH; [|rewrite Hs; split; reflexivity|exact Hq'].
      rewrite Hs. reflexivity.
Qed.

(** X14: up to the first rotation b[0] stays empty until a write leaves
    more than 64KB in b[1]; from that write on (it included) every
    payload is also written to w[0], so b[0] is the output of one fresh
    session over exactly those payloads. *)
Theorem short_window_starts_at_64k (ps : list (list byte)) :
  quiet (newZlibBatchEstimator (E := E)) ps = true ->
  b0 (writes newZlibBatchEstimator ps)
  = concat (emitted z_fresh (mirrored newZlibBatchEstimator ps)).
Proof.
  intros Hq.
  rewrite (mirror_run ps newZlibBatchEstimator); [reflexivity| |exact Hq].
  split; reflexivity.
Qed.

Lemma crossed_writes ps : forall e : zlibBatchEstimator E,
  crossed e -> quiet e ps = true ->
  crossed (writes e ps) /\
  deltas e ps = repeat 0 (length ps) /\
  b0 (writes e ps) = b0 e ++ concat (emitted (zst (w1 e)) ps).
Proof.
  induction ps as [|p ps IH]; intros e Hc Hq.
  - cbn. rewrite app_nil_r. auto.
  - destruct (quiet_cons e p ps Hq) as (Hr & Hw & Hq').
    pose proof (step_crossed e p Hc) as Hs. cbn zeta in Hs.
    assert (Hc' : crossed (after_mirror e p)).
    { rewrite Hs. split; reflexivity. }
    destruct (IH (after_mirror e p) Hc' Hq') as (I1 & I2 & I3).
    cbn [writes fold_left emitted deltas concat length repeat].
    fold (writes (fst (write e p)) ps). rewrite Hw.
    split; [exact I1|]. rewrite I2, I3.
    rewrite (write_crossed_zero e p (proj2 Hc)). rewrite Hs. cbn.
    rewrite <- app_assoc. split; reflexivity.
Qed.

(** X15: from the first rotation to the second every call returns 0,
    whatever is written: the session measured on b[1] puts its whole
    output into b[0] instead. *)
Theorem crossed_phase_returns_zero (e : zlibBatchEstimator E)
    (ps : list (list byte)) :
  crossed e -> quiet e ps = true ->
  deltas e ps = repeat 0 (length ps) /\
  b0 (writes e ps) = b0 e ++ concat (emitted (zst (w1 e)) ps) /\
  crossed (writes e ps).
Proof.
  intros Hc Hq. destruct (crossed_writes ps e Hc Hq) as (H1 & H2 & H3). auto.
Qed.

(** X16: from the second rotation on, after every call b[0] is empty and
    b[1] holds at most 128KB: without a rotation b[1] has grown by the
    output of w[1] and, once that leaves it above 64KB, by the output of
    w[0] as well; a rotation empties b[1] too, makes the old w[0] the new
    w[1] and puts a fresh session in w[0]. *)
Theorem merged_steady_state (e : zlibBatchEstimator E) (p : list byte) :
  merged e ->
  let e' := fst (write e p) in
  let outB := snd (session (zst (w1 e)) p) in
  merged e' /\ b0 e' = [] /\ len (b1 e') <= 128 * 1024 /\
  (rotates e p = false ->
   b1 e' = if 64 * 1024 <? len (b1 e ++ outB)
           then (b1 e ++ outB) ++ snd (session (zst (w0 e)) p)
           else b1 e ++ outB) /\
  (rotates e p = true ->
   b1 e' = [] /\ w1 e' = w0 (after_mirror e p) /\
   w0 e' = mk_zwriter Slot1 z_fresh).
Proof.
  intros Hm. cbn zeta.
  destruct (ZlibProps.write_arrangement e p) as (_ & _ & Hw).
  destruct (Hw Hm) as [Hm' Hrot].
  pose proof (step_merged e p Hm) as Hs. cbn zeta in Hs.
  split; [exact Hm'|]. split; [apply Hm'|].
  rewrite write_fst in *. unfold rotates in *. cbn [buf] in *.
  destruct (Z.ltb_spec (128 * 1024) (len (b1 (after_mirror e p))))
    as [Hover|Hle].
  - rewrite rotate_fields in Hrot |- *. cbn [b0 b1 w0 w1] in Hrot |- *.
    rewrite (Hrot eq_refl).
    split; [unfold len; cbn; lia|]. split; [discriminate|].
    intros _. auto.
  - split; [exact Hle|]. split; [|discriminate].
    intros _. rewrite Hs. reflexivity.
Qed.

End WithEngine.

Lemma direct_phase_is_one_stream_witness :
  deltas (newZlibBatchEstimator (E := raw_engine)) [chunk; chunk; chunk]
  = [12; 10; 10].
Proof.
  destruct (direct_phase_is_one_stream (E := raw_engine)
              [chunk; chunk; chunk]) as (_ & _ & H); [reflexivity|].
  rewrite H. reflexivity.
Defined.

Lemma short_window_starts_at_64k_witness :
  len (b0 (writes (newZlibBatchEstimator (E := raw_engine))
             [zeros (Z.to_nat 60000); zeros (Z.to_nat 10000); chunk]))
  = 10016.
Proof.
  rewrite (short_window_starts_at_64k (E := raw_engine));
    vm_compute; reflexivity.
Defined.

Lemma crossed_phase_returns_zero_witness :
  deltas run_to_crossed [chunk; chunk; chunk] = [0; 0; 0].
Proof.
  destruct (crossed_phase_returns_zero run_to_crossed [chunk; chunk; chunk])
    as (H & _); [vm_compute; split; reflexivity|vm_compute; reflexivity|].
  rewrite H. reflexivity.
Defined.

Lemma merged_steady_state_witness :
  b0 (fst (write run_to_merged chunk)) = [] /\
  len (b1 (fst (write run_to_merged chunk))) <= 128 * 1024.
Proof.
  destruct (merged_steady_state run_to_merged chunk) as (_ & H0 & Hl & _).
  - vm_compute. repeat split; reflexivity.
  - split; assumption.
Defined.

End ZlibMore.

(** ** Further properties of the FastLZ length estimator *)

Module FlzMore.
Import Flz FlzSpec FlzFacts.

Lemma literals_unwrapped (r n : Z) :
  0 <= r -> 0 <= n ->
  n + 33 * (r / 32) + (if r mod 32 =? 0 then 0 else r mod 32 + 1) < 2 ^ 32 ->
  literals r n
  = n + 33 * (r / 32) + (if r mod 32 =? 0 then 0 else r mod 32 + 1).
Proof.
  intros Hr Hn Hs. unfold literals.
  assert (Hq : 0 <= r / 32) by (apply Z.div_pos; lia).
  assert (Hm : 0 <= r mod 32 < 32) by (apply Z.mod_pos_bound; lia).
  destruct (r mod 32 =? 0).
  - rewrite (u32_small (33 * (r / 32))) by lia.
    rewrite u32_small by lia. lia.
  - rewrite (u32_small (33 * (r / 32))) by lia.
    rewrite (u32_small (n + 33 * (r / 32))) by lia.
    rewrite (u32_small (r mod 32 + 1)) by lia.
    rewrite u32_small by lia. reflexivity.
Qed.

Lemma ceil32 (r : Z) :
  0 <= r ->
  (r + 31) / 32 = r / 32 + (if r mod 32 =? 0 then 0 else 1).
Proof.
  intros Hr.
  assert (Hm : 0 <= r mod 32 < 32) by (apply Z.mod_pos_bound; lia).
  pose proof (Z.div_mod r 32 ltac:(lia)) as Hdm.
  destruct (Z.eqb_spec (r mod 32) 0) as [H0|H0].
  - symmetry. apply (Z.div_unique _ _ _ 31); lia.
  - symmetry. apply (Z.div_unique _ _ _ (r mod 32 - 1)); lia.
Qed.

Lemma literals_closed (r n : Z) :
  0 <= r -> 0 <= n -> n + r + (r + 31) / 32 < 2 ^ 32 ->
  literals r n = n + r + (r + 31) / 32.
Proof.
  intros Hr Hn Hs. pose proof (ceil32 r Hr) as Hc.
  pose proof (Z.div_mod r 32 ltac:(lia)) as Hdm.
  assert (Hq : 0 <= r / 32) by (apply Z.div_pos; lia).
  rewrite literals_unwrapped;
    destruct (Z.eqb_spec (r mod 32) 0); lia.
Qed.

(** X17: a run of [r] literals adds [r + ceil(r / 32)] to the cost: one
    control byte for every 32 literals started. *)
Theorem literals_cost (r n : Z) :
  0 <= r -> 0 <= n -> n + r + (r + 31) / 32 < 2 ^ 32 ->
  literals r n = n + r + (r + 31) / 32.
Proof.
  intros Hr Hn Hs.
  assert (Hq : 0 <= r / 32) by (apply Z.div_pos; lia).
  assert (Hm : 0 <= r mod 32 < 32) by (apply Z.mod_pos_bound; lia).
  pose proof (Z.div_mod r 32 ltac:(lia)) as Hdm.
  pose proof (ceil32 r Hr) as Hc.
  destruct (Z.eqb_spec (r mod 32) 0) as [H0|H0].
  - rewrite literals_unwrapped;
      destruct (Z.eqb_spec (r mod 32) 0); lia.
  - rewrite literals_unwrapped;
      destruct (Z.eqb_spec (r mod 32) 0); lia.
Qed.

Lemma literals_cost_witness : literals 40 0 = 42.
Proof. rewrite literals_cost; [reflexivity|lia|lia|vm_compute; reflexivity]. Defined.

Lemma match_cost_bound l n :
  1 <= l -> 0 <= n -> n + l + 1 < 2 ^ 32 ->
  n + 2 <= match_ l n <= n + l + 1.
Proof.
  intros Hl Hn Hs. unfold match_.
  rewrite (u32_small (l - 1)) by lia.
  assert (Hq : 0 <= (l - 1) / 262) by (apply Z.div_pos; lia).
  assert (Hm : 0 <= (l - 1) mod 262 < 262) by (apply Z.mod_pos_bound; lia).
  pose proof (Z.div_mod (l - 1) 262 ltac:(lia)) as Hdm.
  rewrite (u32_small (3 * ((l - 1) / 262))) by lia.
  rewrite (u32_small (n + 3 * ((l - 1) / 262))) by lia.
  destruct (Z.leb_spec 6 ((l - 1) mod 262)); rewrite u32_small by lia; lia.
Qed.



Section WithInput.

Variable ib : list byte.




Lemma cmp_loop_result fuel : forall p q e l l',
  0 <= l -> 0 <= p -> 0 <= q -> p + e < 2 ^ 32 -> q + e < 2 ^ 32 ->
  cmp_loop ib fuel p q e l = Ok l' ->
  (e <= l -> l' = l) /\
  (l < e ->
   l + 1 <= l' <= e /\
   (forall k, l <= k < l' - 1 -> rd ib (p + k) = rd ib (q + k)) /\
   (l' < e -> rd ib (p + (l' - 1)) <> rd ib (q + (l' - 1)))).
Proof.
  induction fuel as [|fuel IH]; intros p q e l l' Hl Hp Hq Hpe Hqe Hc.
  - cbn in Hc. destruct (Z.ltb_spec l e); [discriminate|].
    injection Hc as <-. split; [auto|lia].
  - cbn [cmp_loop] in Hc. destruct (Z.ltb_spec l e) as [Hlt|Hge].
    2:{ injection Hc as <-. split; [auto|lia]. }
    split; [lia|]. intros _.
    rewrite (u32_small (p + l)), (u32_small (q + l)), (u32_small (l + 1))
      in Hc by lia.
    destruct (rd ib (p + l)) as [x| |] eqn:Ex; cbn in Hc; try discriminate.
    destruct (rd ib (q + l)) as [y| |] eqn:Ey; cbn in Hc; try discriminate.
    destruct (Z.eqb_spec x y) as [Hxy|Hxy].
    + subst y.
      destruct (IH p q e (l + 1) l') as [Hstop Hgo]; try lia; try exact Hc.
      destruct (Z.lt_ge_cases (l + 1) e) as [Hmore|Hlast].
      * destruct (Hgo Hmore) as (Hr & Heq & Hne).
        split; [lia|]. split; [|exact Hne].
        intros k Hk. destruct (Z.eq_dec k l) as [->|Hkl].
        -- rewrite Ex, Ey. reflexivity.
        -- apply Heq. lia.
      * rewrite (Hstop Hlast). split; [lia|]. split; [|lia].
        intros k Hk. lia.
    + destruct (IH p q 0 (l + 1) l') as [Hstop _]; try lia; try exact Hc.
      rewrite (Hstop ltac:(lia)). split; [lia|]. split.
      * intros k Hk. lia.
      * intros _. replace (l + 1 - 1) with l by lia.
        rewrite Ex, Ey. congruence.
Qed.

(** X19: what [cmp] returns measures the common run of the input from
    two positions: all bytes before the last one counted are equal at the
    two positions, the count never goes past the limit [e], and when it
    stops short of the limit the last byte counted is the first that
    differs. *)
Theorem cmp_counts_common_run (p q e l : Z) :
  0 <= p <= q -> q < e -> e < 2 ^ 32 ->
  cmp ib p q e = Ok l ->
  1 <= l <= e - q /\
  (forall k, 0 <= k < l - 1 -> rd ib (p + k) = rd ib (q + k)) /\
  (l < e - q -> rd ib (p + (l - 1)) <> rd ib (q + (l - 1))).
Proof.
  intros Hpq Hqe He Hc. unfold cmp in Hc.
  rewrite (u32_small (e - q)) in Hc by lia.
  destruct (cmp_loop_result (Z.to_nat (e - q)) p q (e - q) 0 l)
    as [_ Hgo]; try lia; try exact Hc.
  destruct (Hgo ltac:(lia)) as (Hr & Heq & Hne).
  split; [lia|]. split; assumption.
Qed.

End WithInput.


Lemma cmp_counts_common_run_witness :
  1 <= 3 <= 9 - 5 /\
  rd [x01; x02; x03; x04; x09; x01; x02; x07; x08] (0 + (3 - 1))
  <> rd [x01; x02; x03; x04; x09; x01; x02; x07; x08] (5 + (3 - 1)).
Proof.
  destruct (cmp_counts_common_run
              [x01; x02; x03; x04; x09; x01; x02; x07; x08] 0 5 9 3)
    as (Hr & _ & Hne); try lia; try reflexivity.
  split; [exact Hr|]. apply Hne. lia.
Defined.

End FlzMore.

(** ** The cost returned by the FastLZ length estimator *)

Module FlzCost.
Import Flz FlzSpec FlzFacts FlzMore.

Lemma scan_done ib fuel ip a n ht :
  (ip <? ipLimit ib) = false -> scan ib fuel ip a n ht = Ok (a, n, ht).
Proof. intros H. destruct fuel; cbn [scan]; rewrite H; reflexivity. Qed.

Section Bounded.

Variable ib : list byte.
Hypothesis Hlo : 13 <= len ib.
Hypothesis Hhi : len ib < 2 ^ 31.

Lemma scan_cost fuel : forall ip a n ht,
  0 <= a <= ip -> ip <= len ib - 5 -> table_ok ip ht ->
  0 <= n <= a + a / 32 ->
  (Z.to_nat (ipLimit ib - ip) <= fuel)%nat ->
  exists a' n' ht',
    scan ib fuel ip a n ht = Ok (a', n', ht') /\
    a <= a' <= len ib - 5 /\ 0 <= n' <= a' + a' / 32.
Proof.
  assert (Hhi' : len ib < 2 ^ 32) by lia.
  pose proof (ipLimit_eq ib Hlo Hhi') as HL.
  induction fuel as [|fuel IH]; intros ip a n ht Ha Hip Ht Hn Hf.
  - rewrite scan_done by (apply Z.ltb_ge; lia).
    exists a, n, ht. repeat split; lia.
  - cbn [scan]. destruct (Z.ltb_spec ip (ipLimit ib)) as [Hlt|Hge].
    2:{ exists a, n, ht. repeat split; lia. }
    destruct (probe_ok ib Hlo Hhi' (length ib) ip ht)
      as (ip1 & r & ht1 & E & H1 & H2 & H3);
      [lia|exact Ht|unfold len in *; lia|].
    rewrite E. cbn.
    destruct (Z.leb_spec (ipLimit ib) ip1) as [Hge1|Hlt1].
    { exists a, n, ht1. repeat split; lia. }
    destruct (H3 Hlt1) as (Hadv & Hr & Ht1).
    rewrite (u32_small (ip1 - 1)) by lia.
    set (ip2 := ip1 - 1) in *.
    assert (Hq : 0 <= a / 32 <= a)
      by (split; [apply Z.div_pos; lia|apply Z.div_le_upper_bound; lia]).
    assert (Hn1 : exists n1,
               (if a <? ip2 then literals (u32 (ip2 - a)) n else n) = n1 /\
               0 <= n1 <= n + (ip2 - a) + (ip2 - a + 31) / 32).
    { destruct (Z.ltb_spec a ip2) as [Hr0|Hr0].
      - rewrite (u32_small (ip2 - a)) by lia.
        assert (0 <= (ip2 - a + 31) / 32 <= ip2 - a + 31)
          by (split; [apply Z.div_pos; lia|apply Z.div_le_upper_bound; lia]).
        rewrite literals_closed by lia.
        eexists. split; [reflexivity|]. lia.
      - exists n. split; [reflexivity|].
        replace (ip2 - a) with 0 by lia.
        change ((0 + 31) / 32) with 0. lia. }
    destruct Hn1 as (n1 & -> & Hn1).
    unfold cmp.
    rewrite (u32_small (r + 3)), (u32_small (ip2 + 3)),
      (u32_small (ipLimit ib + 9)) by lia.
    rewrite (u32_small (ipLimit ib + 9 - (ip2 + 3))) by lia.
    destruct (cmp_loop_ok ib (Z.to_nat (ipLimit ib + 9 - (ip2 + 3)))
                (r + 3) (ip2 + 3) (ipLimit ib + 9 - (ip2 + 3)) 0)
      as (l & El & Hl1 & _); try lia.
    rewrite El. cbn.
    assert (Hl : 1 <= l <= ipLimit ib + 6 - ip2) by lia.
    rewrite (u32_small (ip2 + l)) by lia.
    destruct (setNextHash_ok ib (ip2 + l) ht1 (ip2 + l + 2))
      as (ht2 & E2 & Ht2); try lia.
    { apply (table_ok_mono ip2); [lia|exact Ht1]. }
    rewrite E2. cbn.
    destruct (setNextHash_ok ib (ip2 + l + 1) ht2 (ip2 + l + 2))
      as (ht3 & E3 & Ht3); try lia; [exact Ht2|].
    rewrite E3. cbn.
    replace (ip2 + l + 1 + 1) with (ip2 + l + 2) by lia.
    assert (Hdiv : a / 32 + (ip2 - a + 31) / 32
                   <= 1 + (ip2 + l + 2) / 32).
    { Z.to_euclidean_division_equations. lia. }
    assert (Hub : (ip2 + l + 2) / 32 <= ip2 + l + 2)
      by (apply Z.div_le_upper_bound; lia).
    pose proof (match_cost_bound l n1 ltac:(lia) ltac:(lia) ltac:(lia)) as Hm.
    destruct (IH (ip2 + l + 2) (ip2 + l + 2) (match_ l n1) ht3)
      as (a' & n' & ht' & Es & Ha' & Hn'); try lia; try exact Ht3.
    exists a', n', ht'. split; [exact Es|]. split; lia.
Qed.

End Bounded.

Lemma repeat_lookup (c : byte) k i :
  (i < k)%nat -> repeat c k !! i = Some c.
Proof.
  revert i. induction k as [|k IH]; intros i Hi; [lia|].
  destruct i as [|i]; [reflexivity|]. cbn. apply IH. lia.
Qed.

(** The 24-bit window over three equal bytes. *)
Lemma u24_repeat (c : byte) k i :
  0 <= i -> i + 2 < Z.of_nat k -> Z.of_nat k < 2 ^ 32 ->
  u24 (repeat c k) i
  = Ok (Z.lor (Z.lor (byte_val c) (u32 (Z.shiftl (byte_val c) 8)))
          (u32 (Z.shiftl (byte_val c) 16))).
Proof.
  intros Hi Hk Hw. unfold u24, rd.
  rewrite (u32_small (i + 1)), (u32_small (i + 2)) by lia.
  rewrite !repeat_lookup by lia. reflexivity.
Qed.

Lemma cmp_loop_repeat (c : byte) k fuel : forall p q e l,
  0 <= l <= e -> 0 <= p -> 0 <= q ->
  p + e <= Z.of_nat k -> q + e <= Z.of_nat k -> Z.of_nat k < 2 ^ 32 ->
  (Z.to_nat (e - l) <= fuel)%nat ->
  cmp_loop (repeat c k) fuel p q e l = Ok e.
Proof.
  induction fuel as [|fuel IH]; intros p q e l Hl Hp Hq Hpe Hqe Hk Hf.
  - cbn. destruct (Z.ltb_spec l e); [lia|]. f_equal. lia.
  - cbn [cmp_loop]. destruct (Z.ltb_spec l e) as [Hlt|Hge];
      [|f_equal; lia].
    unfold rd. rewrite (u32_small (p + l)), (u32_small (q + l)) by lia.
    rewrite !repeat_lookup by lia. cbn. rewrite Z.eqb_refl.
    rewrite (u32_small (l + 1)) by lia. apply IH; lia.
Qed.

(** X20: the estimate never exceeds the cost of storing the input as
    literals only, [len + ceil(len / 32)], and is at least 2 for a
    non-empty input (for inputs shorter than 2^31 bytes, where the
    [uint32] cost cannot wrap). *)
Theorem estimate_within_literal_cost (ib : list byte) :
  len ib < 2 ^ 31 ->
  exists n,
    FlzCompressLen ib = Ok n /\
    0 <= n <= len ib + (len ib + 31) / 32 /\
    (0 < len ib -> 2 <= n).
Proof.
  intros Hhi. pose proof (len_nonneg ib) as H0.
  assert (Hc : 0 <= (len ib + 31) / 32 <= len ib + 31)
    by (split; [apply Z.div_pos; lia|apply Z.div_le_upper_bound; lia]).
  unfold FlzCompressLen.
  destruct (Z.lt_ge_cases (len ib) 13) as [Hs|Hl].
  - assert (HL : ipLimit ib = 0).
    { unfold ipLimit. destruct (Z.ltb_spec (len ib) 13); [reflexivity|lia]. }
    unfold scan_result. rewrite scan_done by (rewrite HL; reflexivity).
    cbn. rewrite (u32_small (len ib)) by lia. rewrite Z.sub_0_r.
    rewrite (u32_small (len ib)) by lia.
    rewrite literals_closed by lia.
    eexists. split; [reflexivity|]. split; [lia|]. intros Hpos.
    assert (1 <= (len ib + 31) / 32) by (apply Z.div_le_lower_bound; lia).
    lia.
  - unfold scan_result. rewrite (u32_small (0 + 2)) by lia.
    destruct (scan_cost ib Hl Hhi (length ib) (0 + 2) 0 0 empty_table)
      as (a & n & ht & Es & Ha & Hn).
    + lia.
    + lia.
    + apply (table_ok_mono 0); [lia|apply table_ok_empty].
    + change (0 / 32) with 0. lia.
    + rewrite (ipLimit_eq ib Hl) by lia. unfold len. lia.
    + rewrite Es. cbn.
      rewrite (u32_small (len ib)) by lia.
      rewrite (u32_small (len ib - a)) by lia.
      assert (Hq : 0 <= a / 32 <= a)
        by (split; [apply Z.div_pos; lia|apply Z.div_le_upper_bound; lia]).
      assert (Hr : 0 <= (len ib - a + 31) / 32 <= len ib - a + 31)
        by (split; [apply Z.div_pos; lia|apply Z.div_le_upper_bound; lia]).
      assert (Hdiv : a / 32 + (len ib - a + 31) / 32 <= (len ib + 31) / 32).
      { Z.to_euclidean_division_equations. lia. }
      assert (Htop : (len ib + 31) / 32 < 2 ^ 27)
        by (apply Z.div_lt_upper_bound; lia).
      rewrite literals_closed by lia.
      eexists. split; [reflexivity|]. split; lia.
Qed.

Lemma estimate_within_literal_cost_witness :
  exists n, FlzCompressLen (zeros 40) = Ok n /\ 0 <= n <= 42.
Proof.
  destruct (estimate_within_literal_cost (zeros 40)) as (n & Hn & Hb & _).
  - vm_compute. reflexivity.
  - exists n. split; [exact Hn|exact Hb].
Defined.

End FlzCost.

(** ** Runs of one byte *)

Module FlzRuns.
Import Flz FlzSpec FlzFacts FlzMore FlzCost.

Lemma empty_table_lookup i v : empty_table !! i = Some v -> v = 0.
Proof.
  unfold empty_table. intros H. apply lookup_replicate in H as [-> _].
  reflexivity.
Qed.

(** X21: an input of [k] equal bytes, for [k] from 17 up, costs two
    literals, one match that covers all but the last five bytes, and five
    literals: [9 + 3 * ((k - 10) / 262)] plus 2, or plus 3 when
    [(k - 10) mod 262] is 6 or more. *)
Theorem constant_run_cost (c : byte) (k : nat) :
  (17 <= k)%nat -> Z.of_nat k < 2 ^ 31 ->
  FlzCompressLen (repeat c k)
  = Ok (9 + 3 * ((Z.of_nat k - 10) / 262)
        + (if 6 <=? (Z.of_nat k - 10) mod 262 then 3 else 2)).
Proof.
  intros Hk Hw.
  set (s := Z.lor (Z.lor (byte_val c) (u32 (Z.shiftl (byte_val c) 8)))
              (u32 (Z.shiftl (byte_val c) 16))).
  assert (Hu : forall i, 0 <= i -> i + 2 < Z.of_nat k ->
                         u24 (repeat c k) i = Ok s).
  { intros i H0 H2. apply u24_repeat; lia. }
  assert (Hcmp : cmp_loop (repeat c k) (Z.to_nat (Z.of_nat k - 9)) 3 5
                   (Z.of_nat k - 9) 0 = Ok (Z.of_nat k - 9)).
  { apply cmp_loop_repeat; lia. }
  assert (Hlen : length (repeat c k) = k) by apply repeat_length.
  remember (repeat c k) as ib eqn:Hib. clear Hib.
  assert (HK : len ib = Z.of_nat k) by (unfold len; rewrite Hlen; reflexivity).
  assert (Hlo : 13 <= len ib) by lia.
  assert (Hhi : len ib < 2 ^ 32) by lia.
  pose proof (ipLimit_eq ib Hlo Hhi) as HL. rewrite HK in HL.
  (* the first probe, at position 2, finds position 0 *)
  assert (Hprobe : exists ht1,
             probe ib (length ib) 2 empty_table = Ok (3, 0, ht1) /\
             table_ok 2 ht1).
  { rewrite Hlen. destruct k as [|k']; [lia|]. cbn [probe].
    rewrite (Hu 2) by lia. cbn [mbind res_bind].
    destruct (ht_get_ok empty_table (hash s)) as (r & Er & Hr);
      [apply table_ok_empty|apply hash_range|].
    apply empty_table_lookup in Hr. subst r. rewrite Er. cbn [mbind res_bind].
    rewrite ht_set_ok; [|apply table_ok_empty|apply hash_range].
    cbn [mbind res_bind].
    destruct (Z.leb_spec (ipLimit ib) 2); [lia|].
    change (u32 (2 - 0) <=? 8191) with true. cbv iota.
    rewrite (Hu 0) by lia. cbn [mbind res_bind]. rewrite Z.eqb_refl.
    change (u32 (2 + 1)) with 3.
    eexists. split; [reflexivity|].
    apply table_ok_insert; [lia|].
    apply (table_ok_mono 0); [lia|apply table_ok_empty]. }
  destruct Hprobe as (ht1 & Ep & Ht1).
  unfold FlzCompressLen, scan_result.
  assert (Hscan : exists ht3,
             scan ib (length ib) (u32 (0 + 2)) 0 0 empty_table
             = Ok (Z.of_nat k - 5, match_ (Z.of_nat k - 9) (literals 2 0),
                   ht3)).
  { rewrite Hlen. destruct k as [|k']; [lia|]. cbn [scan].
    change (u32 (0 + 2)) with 2.
    destruct (Z.ltb_spec 2 (ipLimit ib)); [|lia].
    rewrite Ep. cbn [mbind res_bind].
    destruct (Z.leb_spec (ipLimit ib) 3); [lia|].
    change (u32 (3 - 1)) with 2. change (0 <? 2) with true. cbv iota.
    change (u32 (2 - 0)) with 2. change (u32 (0 + 3)) with 3.
    change (u32 (2 + 3)) with 5.
    unfold cmp. rewrite (u32_small (ipLimit ib + 9)) by lia.
    rewrite (u32_small (ipLimit ib + 9 - 5)) by lia.
    replace (ipLimit ib + 9 - 5) with (Z.of_nat (S k') - 9) by lia.
    rewrite Hcmp. cbn [mbind res_bind].
    rewrite (u32_small (2 + (Z.of_nat (S k') - 9))) by lia.
    destruct (setNextHash_ok ib (2 + (Z.of_nat (S k') - 9)) ht1
                (Z.of_nat (S k') - 5)) as (ht2 & E2 & Ht2); try lia.
    { apply (table_ok_mono 2); [lia|exact Ht1]. }
    rewrite E2. cbn [mbind res_bind].
    destruct (setNextHash_ok ib (2 + (Z.of_nat (S k') - 9) + 1) ht2
                (Z.of_nat (S k') - 5)) as (ht3 & E3 & Ht3);
      try lia; [exact Ht2|].
    rewrite E3. cbn [mbind res_bind].
    rewrite scan_done by (apply Z.ltb_ge; lia).
    exists ht3. f_equal. f_equal. f_equal. lia. }
  destruct Hscan as (ht3 & Es). rewrite Es. cbn [mbind res_bind].
  rewrite HK. rewrite (u32_small (Z.of_nat k)) by lia.
  replace (Z.of_nat k - (Z.of_nat k - 5)) with 5 by lia.
  change (u32 5) with 5. change (literals 2 0) with 3.
  (* the cost of the match and of the last literals *)
  f_equal.
  assert (Hq : 0 <= (Z.of_nat k - 10) / 262) by (apply Z.div_pos; lia).
  pose proof (Z.mul_div_le (Z.of_nat k - 10) 262 ltac:(lia)) as Hq'.
  unfold match_. rewrite (u32_small (Z.of_nat k - 9 - 1)) by lia.
  replace (Z.of_nat k - 9 - 1) with (Z.of_nat k - 10) by lia.
  rewrite (u32_small (3 * _)) by lia.
  rewrite (u32_small (3 + _)) by lia.
  destruct (6 <=? (Z.of_nat k - 10) mod 262).
  - rewrite (u32_small (3 + _ + 3)) by lia.
    rewrite literals_closed; change ((5 + 31) / 32) with 1; lia.
  - rewrite (u32_small (3 + _ + 2)) by lia.
    rewrite literals_closed; change ((5 + 31) / 32) with 1; lia.
Qed.

Lemma constant_run_cost_witness :
  FlzCompressLen (repeat x00 (Z.to_nat 1000)) = Ok 21.
Proof.
  rewrite (constant_run_cost x00 (Z.to_nat 1000)); [reflexivity|lia|lia].
Defined.

End FlzRuns.

(** ** The worker and the writer together *)

Module Pipeline.
Import WorkerSpec WorkerTrace WriterSpec.



End Pipeline.
